(** * Jackpot game: ledger and game-progression engine

    A shallow embedding of [gameDb.ts], [gameEngine.ts] and the [buySpot]
    procedure of [gameRouters.ts], over an explicit model of the three MySQL
    tables the code touches ([games], [gameSlots], [userPoints]).

    - Integer columns are [Z]; JavaScript [number] arithmetic that leaves
      the integers (the payout and commission formulas) is carried out on
      binary64 floats, as in the source.
    - Every exported function is [async] and threads the database through
      its calls: it is modelled in a state-and-exception monad over the
      tables.  A thrown [Error] keeps the writes made before it (the
      source opens no transaction).
    - [Math.random()] and [new Date()] are inputs of the operations that
      call them. *)

From Stdlib Require Import ZArith Lia Floats Uint63 Ascii String.
From stdpp Require Import gmap strings list pretty sorting relations.

Local Open Scope Z_scope.
Set Warnings "-inexact-float".

(** ** Schema ([drizzle/schema.ts]) *)

Inductive Tier := low | medium | high.
Inductive Status := filling | full | spinning | completed.
Inductive OwnerType := player | bot.
Inductive WinnerType := player_wins | bot_wins | house_wins.

#[global] Instance Tier_eq_dec : EqDecision Tier.
Proof. solve_decision. Defined.
#[global] Instance Status_eq_dec : EqDecision Status.
Proof. solve_decision. Defined.
#[global] Instance OwnerType_eq_dec : EqDecision OwnerType.
Proof. solve_decision. Defined.
#[global] Instance WinnerType_eq_dec : EqDecision WinnerType.
Proof. solve_decision. Defined.

(** [winnerSlot.ownerType as "player" | "bot"] *)
Definition winner_of_owner (o : OwnerType) : WinnerType :=
  match o with player => player_wins | bot => bot_wins end.

(** Rows of [games].  Timestamps are milliseconds since the epoch; the
    [createdAt] column is filled by the database and never read by the
    engine, so it is left out. *)
Module Game.
Record t := mk {
  id : Z;
  tier : Tier;
  slotCount : Z;
  entryCost : Z;
  edgePct : Z;
  winningSlot : option Z;
  winnerType : option WinnerType;
  winnerId : option string;
  payout : option Z;
  houseCommission : option Z;
  status : Status;
  completedAt : option Z
}.

(** [.set({ status: s })] *)
Definition set_status (s : Status) (g : t) : t :=
  mk (id g) (tier g) (slotCount g) (entryCost g) (edgePct g)
     (winningSlot g) (winnerType g) (winnerId g) (payout g)
     (houseCommission g) s (completedAt g).

(** [.set({ winningSlot, winnerType, winnerId, payout, houseCommission,
    status: "completed", completedAt })] *)
Definition set_result (ws : Z) (wt : WinnerType) (wid : string)
    (p hc : Z) (now : Z) (g : t) : t :=
  mk (id g) (tier g) (slotCount g) (entryCost g) (edgePct g)
     (Some ws) (Some wt) (Some wid) (Some p) (Some hc) completed (Some now).
End Game.

(** Rows of [gameSlots]. *)
Module Slot.
Record t := mk {
  gameId : Z;
  slotNumber : Z;
  ownerType : OwnerType;
  ownerId : string;
  entryCost : Z
}.
End Slot.

(** Rows of [userPoints]; [userId] carries a unique index. *)
Module UserPoints.
Record t := mk {
  userId : Z;
  balance : Z;
  totalEarned : Z;
  totalWagered : Z;
  lastDailyReward : option Z
}.
End UserPoints.

(** The payload of [gameEvents.emitGameUpdate]. *)
Module Update.
Record result := mk_result {
  winningSlot : Z;
  winnerType : WinnerType;
  winnerId : string;
  payout : Z;
  houseCommission : Z
}.
Record t := mk {
  gameId : Z;
  tier : Tier;
  status : Status;
  filledCount : Z;
  slotCount : Z;
  slots : list (Z * OwnerType * string);
  res : option result
}.
End Update.

(** ** The world the functions run in

    [games] and [gameSlots] hold their rows in insertion order (neither
    table has a unique index besides the auto-increment key, so duplicates
    are representable); [userPoints] is keyed by its unique [userId];
    [emitted] is the log of published updates. *)
Record World := mkWorld {
  games : list Game.t;
  nextGameId : Z;
  gameSlots : list Slot.t;
  userPoints : gmap Z UserPoints.t;
  emitted : list Update.t
}.

Definition initial : World := mkWorld [] 1 [] ∅ [].

Definition with_games (f : list Game.t -> list Game.t) (w : World) : World :=
  mkWorld (f (games w)) (nextGameId w) (gameSlots w) (userPoints w) (emitted w).
Definition with_userPoints
    (f : gmap Z UserPoints.t -> gmap Z UserPoints.t) (w : World) : World :=
  mkWorld (games w) (nextGameId w) (gameSlots w) (f (userPoints w)) (emitted w).
Definition insert_slot (s : Slot.t) (w : World) : World :=
  mkWorld (games w) (nextGameId w) (gameSlots w ++ [s]) (userPoints w) (emitted w).
Definition insert_game (g : Game.t) (w : World) : World :=
  mkWorld (games w ++ [g]) (nextGameId w + 1) (gameSlots w) (userPoints w) (emitted w).
Definition emit (u : Update.t) (w : World) : World :=
  mkWorld (games w) (nextGameId w) (gameSlots w) (userPoints w) (emitted w ++ [u]).

(** ** Effects: state passing with exceptions *)

(** The errors the code can raise.  [message] gives the text passed to
    [new Error] in [gameRouters.ts]; [Undefined] stands for the
    [TypeError] of reading a property of [undefined]. *)
Inductive Err := GameNotFound | SlotTaken | InsufficientFunds | Undefined.

Definition message (e : Err) : string :=
  match e with
  | GameNotFound => "Game not found"
  | SlotTaken => "Slot already taken"
  | InsufficientFunds => "Insufficient balance"
  | Undefined => "Cannot read properties of undefined"
  end.

Inductive Outcome (A : Type) := Returned (a : A) | Thrown (e : Err).
Arguments Returned {A} a.
Arguments Thrown {A} e.

Definition Eff (A : Type) : Type := World -> Outcome A * World.

Definition ret {A} (a : A) : Eff A := fun w => (Returned a, w).
Definition throw {A} (e : Err) : Eff A := fun w => (Thrown e, w).
Definition bind {A B} (m : Eff A) (k : A -> Eff B) : Eff B :=
  fun w =>
    match m w with
    | (Returned a, w') => k a w'
    | (Thrown e, w') => (Thrown e, w')
    end.
Definition gets {A} (f : World -> A) : Eff A := fun w => (Returned (f w), w).
Definition modify (f : World -> World) : Eff unit := fun w => (Returned tt, f w).

Notation "x <- m ;; k" := (bind m (fun x => k))
  (at level 100, m at next level, right associativity).
Notation "m ;;; k" := (bind m (fun _ => k))
  (at level 100, right associativity).

(** ** Ledger ([gameDb.ts]) *)

(** [getOrCreateUserPoints].  The closing re-select reads [r[0]]; were the
    row missing, every caller would fail on its first property access,
    which is what [Undefined] records. *)
Definition getOrCreateUserPoints (userId : Z) : Eff UserPoints.t :=
  existing <- gets (fun w => userPoints w !! userId) ;;
  match existing with
  | Some p => ret p
  | None =>
      modify (with_userPoints
                (insert userId
                   (UserPoints.mk userId 30000 30000 0 None))) ;;;
      r <- gets (fun w => userPoints w !! userId) ;;
      match r with
      | Some p => ret p
      | None => throw Undefined
      end
  end.

Definition getUserPoints (userId : Z) : Eff UserPoints.t :=
  getOrCreateUserPoints userId.

(** [updateUserBalance]: the [set] clause is computed from [current]. *)
Definition updateUserBalance (userId amount : Z) : Eff Z :=
  current <- getOrCreateUserPoints userId ;;
  let newBalance := UserPoints.balance current + amount in
  modify (with_userPoints
            (alter (fun row =>
                      UserPoints.mk (UserPoints.userId row)
                        newBalance
                        (if 0 <? amount
                         then UserPoints.totalEarned current + amount
                         else UserPoints.totalEarned current)
                        (if amount <? 0
                         then UserPoints.totalWagered current + Z.abs amount
                         else UserPoints.totalWagered current)
                        (UserPoints.lastDailyReward row))
                   userId)) ;;;
  ret newBalance.

Section DailyReward.
(** [localMidnight t] is
    [new Date(d.getFullYear(), d.getMonth(), d.getDate()).getTime()]
    for the date [d] at instant [t]: the start of [t]'s calendar day in
    the server's time zone. *)
Variable localMidnight : Z -> Z.

(** [applyDailyReward], called at instant [now].  A stored [Date] is
    always truthy, so the guard is the presence of the column. *)
Definition applyDailyReward (now : Z) (userId : Z) : Eff bool :=
  points <- getOrCreateUserPoints userId ;;
  let already :=
    match UserPoints.lastDailyReward points with
    | Some lastReward => localMidnight now =? localMidnight lastReward
    | None => false
    end in
  if already then ret false
  else
    let newBalance := UserPoints.balance points + 50000 in
    modify (with_userPoints
              (alter (fun row =>
                        UserPoints.mk (UserPoints.userId row)
                          newBalance
                          (UserPoints.totalEarned points + 50000)
                          (UserPoints.totalWagered row)
                          (Some now))
                     userId)) ;;;
    ret true.
End DailyReward.

(** ** JavaScript built-ins used by the engine *)

(** An integer as a [number]; exact for magnitudes below [2^53], which
    covers every [int] column. *)
Definition of_int (z : Z) : float :=
  if z <? 0 then PrimFloat.opp (PrimFloat.of_uint63 (Uint63.of_Z (- z)))
  else PrimFloat.of_uint63 (Uint63.of_Z z).

(** [Math.round]: the nearest integer, ties towards [+∞], computed
    exactly from the mantissa and exponent.  A finite argument is all the
    engine can produce from [int] columns; [NaN] and the infinities are
    mapped to [0]. *)
Definition Math_round (x : float) : Z :=
  match Prim2SF x with
  | S754_finite s m e =>
      let n := if s then Z.neg m else Z.pos m in
      if 0 <=? e then n * 2 ^ e
      else (2 * n + 2 ^ (- e)) / 2 ^ (- e + 1)
  | _ => 0
  end.

(** [parseInt(s)] with no radix: leading white space, an optional sign,
    an optional [0x] prefix, then the longest run of digits.  [None] is
    [NaN].  The result is kept exact (ids are [int] values).

    A string is its sequence of UTF-8 bytes.  [leading_code_point s]
    decodes the code point [s] starts with (one to three bytes, which
    covers every white-space character) and gives the rest of [s]. *)
Definition byte_value (c : ascii) : Z := Z.of_nat (nat_of_ascii c).

Definition is_continuation (c : ascii) : bool :=
  (128 <=? byte_value c) && (byte_value c <? 192).

Definition leading_code_point (s : string) : option (Z * string) :=
  match s with
  | EmptyString => None
  | String c1 s1 =>
      let b1 := byte_value c1 in
      if b1 <? 128 then Some (b1, s1)
      else if (192 <=? b1) && (b1 <? 224) then
        match s1 with
        | String c2 s2 =>
            if is_continuation c2
            then Some ((b1 - 192) * 64 + (byte_value c2 - 128), s2)
            else None
        | EmptyString => None
        end
      else if (224 <=? b1) && (b1 <? 240) then
        match s1 with
        | String c2 (String c3 s3) =>
            if is_continuation c2 && is_continuation c3
            then Some (((b1 - 224) * 64 + (byte_value c2 - 128)) * 64
                       + (byte_value c3 - 128), s3)
            else None
        | _ => None
        end
      else None
  end.

(** The characters [parseInt] strips: WhiteSpace and LineTerminator of
    ECMAScript, that is TAB, LF, VT, FF, CR, SP, U+00A0, U+1680,
    U+2000 to U+200A, U+2028, U+2029, U+202F, U+205F, U+3000 and
    U+FEFF. *)
Definition is_white_space (codePoint : Z) : bool :=
  ((9 <=? codePoint) && (codePoint <=? 13))
  || (codePoint =? 32) || (codePoint =? 160) || (codePoint =? 5760)
  || ((8192 <=? codePoint) && (codePoint <=? 8202))
  || (codePoint =? 8232) || (codePoint =? 8233) || (codePoint =? 8239)
  || (codePoint =? 8287) || (codePoint =? 12288) || (codePoint =? 65279).

(** Each round strips one character, so as many rounds as the string
    has bytes are enough. *)
Fixpoint skip_white_space_from (rounds : nat) (s : string) : string :=
  match rounds with
  | O => s
  | S rounds =>
      match leading_code_point s with
      | Some (codePoint, rest) =>
          if is_white_space codePoint then skip_white_space_from rounds rest
          else s
      | None => s
      end
  end.

Definition skip_white_space (s : string) : string :=
  skip_white_space_from (String.length s) s.

Definition digit_value (radix : Z) (c : ascii) : option Z :=
  let n := Z.of_nat (nat_of_ascii c) in
  let d :=
    if (48 <=? n) && (n <=? 57) then n - 48
    else if (97 <=? n) && (n <=? 122) then n - 87
    else if (65 <=? n) && (n <=? 90) then n - 55
    else radix in
  if d <? radix then Some d else None.

Fixpoint parse_digits (radix : Z) (s : string) (acc : option Z) : option Z :=
  match s with
  | String c s' =>
      match digit_value radix c with
      | Some d => parse_digits radix s' (Some (radix * default 0 acc + d))
      | None => acc
      end
  | EmptyString => acc
  end.

Definition parseInt (s : string) : option Z :=
  let s1 := skip_white_space s in
  let '(negative, s2) :=
    match s1 with
    | String "-" r => (true, r)
    | String "+" r => (false, r)
    | _ => (false, s1)
    end in
  let '(radix, s3) :=
    match s2 with
    | String "0" (String "x" r) | String "0" (String "X" r) => (16, r)
    | _ => (10, s2)
    end in
  match parse_digits radix s3 None with
  | Some n => Some (if negative then - n else n)
  | None => None
  end.

(** [Number.prototype.toString] on an integer *)
Definition toString (n : Z) : string := pretty n.

(** The randomness an operation consumes: [random_index n] is the value
    of [Math.floor(Math.random() * n)].  [Math.random()] lies in [[0, 1)],
    so for a positive integer [n] the value lies in [[0, n)]. *)
Record Rng := mkRng {
  random_index : Z -> Z;
  random_index_range : forall n, 0 < n -> 0 <= random_index n < n
}.

(** ** Game engine ([gameEngine.ts]) *)

Definition BOT_NAMES : list string :=
  ["T"; "B"; "J"; "P"; "K"; "M"; "S"; "L"; "R"; "N"; "C"; "D"].

Module GameConfig.
Record t := mk {
  tier : Tier;
  slotCount : Z;
  entryCost : Z;
  edgePct : Z;
  fillTimeMs : Z
}.
End GameConfig.

Definition GAME_CONFIGS (tier : Tier) : GameConfig.t :=
  match tier with
  | low => GameConfig.mk low 12 5 (-2) 30000
  | medium => GameConfig.mk medium 10 11 (-8) 30000
  | high => GameConfig.mk high 6 25 (-20) 15000
  end.

(** [createGame]: the row gets the next auto-increment id. *)
Definition createGame (tier : Tier) : Eff Z :=
  let config := GAME_CONFIGS tier in
  insertId <- gets nextGameId ;;
  modify (insert_game
            (Game.mk insertId (GameConfig.tier config)
               (GameConfig.slotCount config) (GameConfig.entryCost config)
               (GameConfig.edgePct config)
               None None None None None filling None)) ;;;
  ret insertId.

Module GameState.
Record t := mk {
  game : Game.t;
  slots : list Slot.t;
  filledCount : Z;
  emptyCount : Z
}.
End GameState.

(** [getGameState]: a read; [None] is [null]. *)
Definition getGameState (gameId : Z) (w : World) : option GameState.t :=
  match List.find (fun g => Game.id g =? gameId) (games w) with
  | None => None
  | Some game =>
      let slots := List.filter (fun s => Slot.gameId s =? gameId) (gameSlots w) in
      Some (GameState.mk game slots
              (Z.of_nat (length slots))
              (Game.slotCount game - Z.of_nat (length slots)))
  end.

(** [db.update(games).set(...).where(eq(games.id, gameId))] *)
Definition update_game (gameId : Z) (f : Game.t -> Game.t)
    (gs : list Game.t) : list Game.t :=
  List.map (fun g => if Game.id g =? gameId then f g else g) gs.

(** [addBotEntry].  The [for] loop with its [break] is the first hit
    of a search through [1, ..., slotCount]; [!emptySlot] also holds
    for the number [0]. *)
Definition addBotEntry (rng : Rng) (gameId : Z) : Eff bool :=
  state <- gets (getGameState gameId) ;;
  match state with
  | None => ret false
  | Some state =>
      let game := GameState.game state in
      if negb (bool_decide (Game.status game = filling)) then ret false
      else if Game.slotCount game <=? GameState.filledCount state then ret false
      else
        let occupiedSlots : gset Z :=
          list_to_set (List.map Slot.slotNumber (GameState.slots state)) in
        let emptySlot :=
          List.find (fun i => negb (bool_decide (i ∈ occupiedSlots)))
                    (seqZ 1 (Game.slotCount game)) in
        match emptySlot with
        | None => ret false
        | Some emptySlot =>
            if emptySlot =? 0 then ret false
            else
              let botName :=
                nth (Z.to_nat (random_index rng (Z.of_nat (length BOT_NAMES))))
                    BOT_NAMES "" in
              modify (insert_slot
                        (Slot.mk gameId emptySlot bot botName
                           (Game.entryCost game))) ;;;
              ret true
        end
  end.

Definition slot_summary (s : Slot.t) : Z * OwnerType * string :=
  (Slot.slotNumber s, Slot.ownerType s, Slot.ownerId s).

(** [spinGame], run at instant [now]. *)
Definition spinGame (rng : Rng) (now : Z) (gameId : Z) : Eff bool :=
  state <- gets (getGameState gameId) ;;
  match state with
  | None => ret false
  | Some state =>
      let game := GameState.game state in
      let slots := GameState.slots state in
      modify (with_games (update_game gameId (Game.set_status spinning))) ;;;
      let winningSlot := random_index rng (Game.slotCount game) + 1 in
      let winnerSlot :=
        List.find (fun s => Slot.slotNumber s =? winningSlot) slots in
      let '(winnerType, winnerId, payout) :=
        match winnerSlot with
        | None => (house_wins, "house", 0)
        | Some winnerSlot =>
            let winnerType := winner_of_owner (Slot.ownerType winnerSlot) in
            let playerSlots :=
              Z.of_nat (length (List.filter
                (fun s => bool_decide (Slot.ownerType s = player)) slots)) in
            (winnerType, Slot.ownerId winnerSlot,
             if (0 <? playerSlots) && bool_decide (winnerType = player_wins)
             then
               let playerWinChance :=
                 (of_int playerSlots / of_int (Game.slotCount game))%float in
               let totalPot :=
                 (of_int (Z.of_nat (length slots))
                  * of_int (Game.entryCost game))%float in
               let rawPayout :=
                 ((totalPot / playerWinChance)
                  * (1 + of_int (Game.edgePct game) / 100))%float in
               Math_round (rawPayout / 5)%float * 5
             else 0)
        end in
      let totalPot :=
        (of_int (Z.of_nat (length slots)) * of_int (Game.entryCost game))%float in
      let houseCommission := Math_round (totalPot * 0.1)%float in
      modify (with_games (update_game gameId
                (Game.set_result winningSlot winnerType winnerId
                   (if bool_decide (winnerType = player_wins) then payout else 0)
                   houseCommission now))) ;;;
      (if bool_decide (winnerType = player_wins) then
         match parseInt winnerId with
         | Some userId_num => updateUserBalance userId_num payout ;;; ret tt
         | None => ret tt
         end
       else ret tt) ;;;
      finalState <- gets (getGameState gameId) ;;
      match finalState with
      | Some finalState =>
          let g := GameState.game finalState in
          modify (emit
                    (Update.mk (Game.id g) (Game.tier g) (Game.status g)
                       (GameState.filledCount finalState) (Game.slotCount g)
                       (List.map slot_summary (GameState.slots finalState))
                       (Some (Update.mk_result winningSlot winnerType winnerId
                                payout houseCommission))))
      | None => ret tt
      end ;;;
      ret true
  end.

(** [checkAndSpinIfFull] *)
Definition checkAndSpinIfFull (rng : Rng) (now : Z) (gameId : Z) : Eff bool :=
  state <- gets (getGameState gameId) ;;
  match state with
  | None => ret false
  | Some state =>
      if GameState.filledCount state <? Game.slotCount (GameState.game state)
      then ret false
      else spinGame rng now gameId
  end.

(** [getOrCreateActiveGame]: [limit(1)] takes the first matching row. *)
Definition is_active (s : Status) : bool :=
  bool_decide (s = filling) || bool_decide (s = full).

Definition getOrCreateActiveGame (tier : Tier) : Eff Z :=
  activeGames <- gets (fun w =>
    List.find (fun g => bool_decide (Game.tier g = tier) && is_active (Game.status g))
              (games w)) ;;
  match activeGames with
  | Some g => ret (Game.id g)
  | None => createGame tier
  end.

(** ** The [buySpot] procedure ([gameRouters.ts]) *)

Module BuyResult.
Record t := mk { success : bool; message : string; newBalance : Z }.
End BuyResult.

(** [buySpot] for the signed-in user [userId].  The [catch] block logs and
    rethrows. *)
Definition buySpot (rng : Rng) (now : Z) (userId gameId slotNumber : Z)
    : Eff BuyResult.t :=
  state <- gets (getGameState gameId) ;;
  match state with
  | None => throw GameNotFound
  | Some state =>
      let slotTaken :=
        existsb (fun s => Slot.slotNumber s =? slotNumber) (GameState.slots state) in
      if slotTaken then throw SlotTaken
      else
        userPoints <- getUserPoints userId ;;
        let entryCost := Game.entryCost (GameState.game state) in
        if UserPoints.balance userPoints <? entryCost then throw InsufficientFunds
        else
          updateUserBalance userId (- entryCost) ;;;
          modify (insert_slot
                    (Slot.mk gameId slotNumber player (toString userId) entryCost)) ;;;
          checkAndSpinIfFull rng now gameId ;;;
          ret (BuyResult.mk true "Spot purchased!"
                 (UserPoints.balance userPoints - entryCost))
  end.

(** ** Sequences of engine operations *)

Inductive Op :=
| GetOrCreateActiveGame (tier : Tier)
| AddBotEntry (rng : Rng) (gameId : Z)
| BuySpot (rng : Rng) (now : Z) (userId gameId slotNumber : Z)
| CheckAndSpinIfFull (rng : Rng) (now : Z) (gameId : Z)
| SpinGame (rng : Rng) (now : Z) (gameId : Z).

(** The world an operation leaves behind, whether it returns or throws. *)
Definition run (o : Op) (w : World) : World :=
  match o with
  | GetOrCreateActiveGame tier => snd (getOrCreateActiveGame tier w)
  | AddBotEntry rng gameId => snd (addBotEntry rng gameId w)
  | BuySpot rng now userId gameId slotNumber =>
      snd (buySpot rng now userId gameId slotNumber w)
  | CheckAndSpinIfFull rng now gameId => snd (checkAndSpinIfFull rng now gameId w)
  | SpinGame rng now gameId => snd (spinGame rng now gameId w)
  end.

Definition run_all (ops : list Op) (w : World) : World :=
  fold_left (fun w o => run o w) ops w.

(** ** Calls that overlap

    An [async] function gives up control at each [await]: between two
    of its database round trips another call may run.  A [Task] is a call
    cut at those points; a round trip reads the world, hands back what is
    left of the call, and may write. *)
#[warnings="-register-all"] Inductive Task (A : Type) : Type :=
| Finished (a : A)
| Failed (e : Err)
| Await (roundTrip : World -> Task A * World).
Arguments Finished {A} a.
Arguments Failed {A} e.
Arguments Await {A} roundTrip.

(** [getOrCreateActiveGame] cut at its awaits on the tables: the
    [select], and, when that found no row, the [insert] of [createGame].
    The awaits on [getDb] touch no table and are not cut points here. *)
Definition getOrCreateActiveGame_task (tier : Tier) : Task Z :=
  Await (fun w =>
    let activeGames :=
      List.find (fun g => bool_decide (Game.tier g = tier) && is_active (Game.status g))
                (games w) in
    match activeGames with
    | Some g => (Finished (Game.id g), w)
    | None =>
        (Await (fun w' =>
           match createGame tier w' with
           | (Returned insertId, w'') => (Finished insertId, w'')
           | (Thrown e, w'') => (Failed e, w'')
           end), w)
    end).

(** A call run with nothing in between. *)
Fixpoint complete {A} (t : Task A) (w : World) : Outcome A * World :=
  match t with
  | Finished a => (Returned a, w)
  | Failed e => (Thrown e, w)
  | Await roundTrip =>
      match roundTrip w with
      | (t', w') => complete t' w'
      end
  end.

(** The calls in flight take turns: each number of the schedule lets
    that call make its next round trip. *)
Fixpoint interleave {A} (schedule : list nat) (calls : list (Task A)) (w : World)
    : list (Task A) * World :=
  match schedule with
  | [] => (calls, w)
  | i :: schedule =>
      match calls !! i with
      | Some (Await roundTrip) =>
          match roundTrip w with
          | (t', w') => interleave schedule (<[i := t']> calls) w'
          end
      | _ => interleave schedule calls w
      end
  end.

(** A generator that answers [k] whenever [k] is in range, for examples. *)
Definition pick (k n : Z) : Z := if (0 <=? k) && (k <? n) then k else 0.

Definition rng_of (k : Z) : Rng.
Proof.
  refine (mkRng (pick k) _).
  unfold pick. intros n Hn. destruct ((0 <=? k) && (k <? n)) eqn:E; lia.
Defined.

(** ** The scheduler tick ([startGameLoopForTier]) *)

(** [Math.ceil], computed exactly like [Math_round]. *)
Definition Math_ceil (x : float) : Z :=
  match Prim2SF x with
  | S754_finite s m e =>
      let n := if s then Z.neg m else Z.pos m in
      if 0 <=? e then n * 2 ^ e
      else - ((- n) / 2 ^ (- e))
  | _ => 0
  end.

(** [try { ... } catch (error) { console.error(...) }]: the error is
    logged and dropped, the writes made before it stay. *)
Definition catch_log (m : Eff unit) : Eff unit :=
  fun w =>
    match m w with
    | (Returned a, w') => (Returned a, w')
    | (Thrown _, w') => (Returned tt, w')
    end.

(** The [for (let i = 0; i < botsToAdd; i++)] loop of the tick, from
    index [i] with [remaining] rounds to go.  [rngs i] is the randomness
    of round [i], [spin] that of the settlement; the early [return]
    leaves the loop. *)
Fixpoint addBots (rngs : nat -> Rng) (spin : Rng) (now gameId : Z)
    (i remaining : nat) : Eff unit :=
  match remaining with
  | O => ret tt
  | S remaining =>
      added <- addBotEntry (rngs i) gameId ;;
      if added : bool then
        updatedState <- gets (getGameState gameId) ;;
        match updatedState with
        | Some updatedState =>
            let g := GameState.game updatedState in
            modify (emit
                      (Update.mk (Game.id g) (Game.tier g) (Game.status g)
                         (GameState.filledCount updatedState) (Game.slotCount g)
                         (List.map slot_summary (GameState.slots updatedState))
                         None)) ;;;
            if Game.slotCount g <=? GameState.filledCount updatedState
            then checkAndSpinIfFull spin now gameId ;;; ret tt
            else addBots rngs spin now gameId (S i) remaining
        | None => addBots rngs spin now gameId (S i) remaining
        end
      else addBots rngs spin now gameId (S i) remaining
  end.

(** One run of the [setInterval] callback for [tier]. *)
Definition tierTick (rngs : nat -> Rng) (spin : Rng) (now : Z) (tier : Tier)
    : Eff unit :=
  catch_log
    (gameId <- getOrCreateActiveGame tier ;;
     state <- gets (getGameState gameId) ;;
     match state with
     | None => ret tt
     | Some state =>
         let game := GameState.game state in
         if Game.slotCount game <=? GameState.filledCount state
         then checkAndSpinIfFull spin now gameId ;;; ret tt
         else
           let emptySlots := Game.slotCount game - GameState.filledCount state in
           let botsToAdd := Z.max 1 (Math_ceil (of_int emptySlots / 3)%float) in
           addBots rngs spin now gameId 0 (Z.to_nat botsToAdd)
     end).

(** ** The other procedures of [gameRouters.ts] *)

Module ActiveGame.
Record result := mk_result {
  winningSlot : option Z;
  winnerType : option WinnerType;
  winnerId : option string;
  payout : option Z
}.
Record view := mk_view {
  gameId : Z;
  tier : Tier;
  slotCount : Z;
  entryCost : Z;
  edgePct : Z;
  status : Status;
  filledCount : Z;
  emptyCount : Z;
  slots : list (Z * OwnerType * string);
  res : option result
}.
(** [{ error: ... }] or the view *)
Inductive t := error (msg : string) | ok (v : view).
End ActiveGame.

(** A nullable [int] in a condition: [null] and [0] are falsy. *)
Definition truthy (n : option Z) : bool :=
  match n with
  | Some n => negb (n =? 0)
  | None => false
  end.

(** [getActiveGame] *)
Definition getActiveGame (tier : Tier) : Eff ActiveGame.t :=
  gameId <- getOrCreateActiveGame tier ;;
  state <- gets (getGameState gameId) ;;
  match state with
  | None => ret (ActiveGame.error "Game not found")
  | Some state =>
      let game := GameState.game state in
      ret (ActiveGame.ok
             (ActiveGame.mk_view (Game.id game) (Game.tier game)
                (Game.slotCount game) (Game.entryCost game) (Game.edgePct game)
                (Game.status game) (GameState.filledCount state)
                (GameState.emptyCount state)
                (List.map slot_summary (GameState.slots state))
                (if truthy (Game.winningSlot game)
                 then Some (ActiveGame.mk_result (Game.winningSlot game)
                              (Game.winnerType game) (Game.winnerId game)
                              (Game.payout game))
                 else None)))
  end.

(** [getUserBalance] for the signed-in user *)
Definition getUserBalance (userId : Z) : Eff (Z * Z * Z * option Z) :=
  points <- getUserPoints userId ;;
  ret (UserPoints.balance points, UserPoints.totalEarned points,
       UserPoints.totalWagered points, UserPoints.lastDailyReward points).

Module ClaimResult.
Record t := mk { success : bool; message : string; newBalance : option Z }.
End ClaimResult.

(** [claimDailyReward] for the signed-in user, at instant [now] *)
Definition claimDailyReward (localMidnight : Z -> Z) (now userId : Z)
    : Eff ClaimResult.t :=
  success <- applyDailyReward localMidnight now userId ;;
  if success : bool then
    points <- getUserPoints userId ;;
    ret (ClaimResult.mk true "Daily reward claimed!"
           (Some (UserPoints.balance points)))
  else
    ret (ClaimResult.mk false "Daily reward already claimed today" None).

(** ** The leaderboard ([gameDb.ts]) *)

(** [Array.prototype.slice(0, end)]: a negative [end] counts from the
    back. *)
Definition slice0 {A} (endIndex : Z) (l : list A) : list A :=
  if 0 <=? endIndex then take (Z.to_nat endIndex) l
  else take (Z.to_nat (Z.of_nat (length l) + endIndex)) l.

(** [Array.prototype.sort(compareFn)].  The sort is stable, and for a
    consistent comparator every stable sort yields the same array; it is
    computed here by insertion, an element going in front of the first
    one it does not compare greater than. *)
Fixpoint sort_insert {A} (compareFn : A -> A -> Z) (x : A) (l : list A) : list A :=
  match l with
  | [] => [x]
  | y :: l' =>
      if compareFn x y <=? 0 then x :: l
      else y :: sort_insert compareFn x l'
  end.

Definition Array_sort {A} (compareFn : A -> A -> Z) (l : list A) : list A :=
  foldr (sort_insert compareFn) [] l.

(** [getLeaderboard].  [allPoints] is what [db.select().from(userPoints)]
    yields: the rows of the table in the order the storage keeps them.
    [World] does not record that order, so the rows are passed in. *)
Definition getLeaderboard (allPoints : list UserPoints.t) (limit : Z)
    : list UserPoints.t :=
  slice0 limit
    (Array_sort (fun a b => UserPoints.balance b - UserPoints.balance a) allPoints).

(** [a] may stand in front of [b] on the board. *)
Definition richer_first (a b : UserPoints.t) : Prop :=
  UserPoints.balance b <= UserPoints.balance a.

(** The rows with a given balance, in their order. *)
Definition with_balance (balance : Z) (rows : list UserPoints.t) : list UserPoints.t :=
  List.filter (fun r => UserPoints.balance r =? balance) rows.

(** ** Every call the server makes *)

Inductive Call :=
| Engine (o : Op)
| UpdateUserBalance (userId amount : Z)
| Tick (rngs : nat -> Rng) (spin : Rng) (now : Z) (tier : Tier)
| ClaimDailyReward (localMidnight : Z -> Z) (now userId : Z)
| GetUserBalance (userId : Z)
| GetActiveGame (tier : Tier).

Definition perform (c : Call) (w : World) : World :=
  match c with
  | Engine o => run o w
  | UpdateUserBalance userId amount => snd (updateUserBalance userId amount w)
  | Tick rngs spin now tier => snd (tierTick rngs spin now tier w)
  | ClaimDailyReward localMidnight now userId =>
      snd (claimDailyReward localMidnight now userId w)
  | GetUserBalance userId => snd (getUserBalance userId w)
  | GetActiveGame tier => snd (getActiveGame tier w)
  end.

Definition perform_all (calls : list Call) (w : World) : World :=
  fold_left (fun w c => perform c w) calls w.

(** ** Vocabulary of the statements *)

(** The row [select ... where id = gameId limit 1] returns. *)
Definition game_of (gameId : Z) (w : World) : option Game.t :=
  List.find (fun g => Game.id g =? gameId) (games w).

(** The rows of [gameSlots] that belong to a game. *)
Definition slots_of (gameId : Z) (w : World) : list Slot.t :=
  List.filter (fun s => Slot.gameId s =? gameId) (gameSlots w).

Definition game_known (gameId : Z) (w : World) : Prop :=
  exists g, In g (games w) /\ Game.id g = gameId.

Definition slot_occupied (gameId n : Z) (w : World) : Prop :=
  exists s, In s (gameSlots w) /\ Slot.gameId s = gameId /\ Slot.slotNumber s = n.

Definition is_player (s : Slot.t) : bool := bool_decide (Slot.ownerType s = player).

(** [Math.round(totalPot * 0.1)] for a pot of [n] entries at [cost]. *)
Definition commission (n cost : Z) : Z :=
  Math_round (of_int n * of_int cost * 0.1)%float.

(** A game counts as active for its tier while [filling] or [full]. *)
Definition active_in (tier : Tier) (g : Game.t) : bool :=
  bool_decide (Game.tier g = tier) && is_active (Game.status g).

(** The slot [spinGame] finds on the number it draws. *)
Definition winnerSlot_of (rng : Rng) (gameId : Z) (g : Game.t) (w : World)
    : option Slot.t :=
  List.find (fun s => Slot.slotNumber s =? random_index rng (Game.slotCount g) + 1)
            (slots_of gameId w).

(** [Math.round(rawPayout / 5) * 5] for [n] slots of which [players] are
    players'. *)
Definition rounded_payout (n players slotCount entryCost edgePct : Z) : Z :=
  Math_round
    (of_int n * of_int entryCost / (of_int players / of_int slotCount)
     * (1 + of_int edgePct / 100) / 5)%float * 5.

(** The invariant on the [games] table: every row is [filling] or
    [completed], and each tier has at most one active row. *)
Definition games_inv (gs : list Game.t) : Prop :=
  Forall (fun g => Game.status g = filling \/ Game.status g = completed) gs
  /\ forall tier, (length (List.filter (active_in tier) gs) <= 1)%nat.

(** A slot lies on its game's board when its number is in
    [1 .. slotCount]. *)
Definition on_board (w : World) (s : Slot.t) : Prop :=
  exists g, game_of (Slot.gameId s) w = Some g
            /\ 1 <= Slot.slotNumber s <= Game.slotCount g.

(** A high-tier game bought out by user 7; the sixth purchase, at instant
    2000, fills the board and settles it on slot 1. *)
Definition bought_out : World :=
  run_all [GetOrCreateActiveGame high;
           BuySpot (rng_of 0) 1000 7 1 1; BuySpot (rng_of 0) 1000 7 1 2;
           BuySpot (rng_of 0) 1000 7 1 3; BuySpot (rng_of 0) 1000 7 1 4;
           BuySpot (rng_of 0) 1000 7 1 5; BuySpot (rng_of 0) 2000 7 1 6]
          initial.

(** The writes a call is made of, each with what the code has checked
    when it issues it.  The two [games] updates of a settlement come as
    one. *)
Inductive effect (w : World) : World -> Prop :=
| eff_user (u : Z) :
    userPoints w !! u = None ->
    effect w (with_userPoints (insert u (UserPoints.mk u 30000 30000 0 None)) w)
| eff_balance (u amount : Z) (current : UserPoints.t) :
    userPoints w !! u = Some current ->
    effect w
      (with_userPoints
         (alter (fun row =>
                   UserPoints.mk (UserPoints.userId row)
                     (UserPoints.balance current + amount)
                     (if 0 <? amount
                      then UserPoints.totalEarned current + amount
                      else UserPoints.totalEarned current)
                     (if amount <? 0
                      then UserPoints.totalWagered current + Z.abs amount
                      else UserPoints.totalWagered current)
                     (UserPoints.lastDailyReward row))
                u) w)
| eff_reward (u now : Z) (points : UserPoints.t) :
    userPoints w !! u = Some points ->
    effect w
      (with_userPoints
         (alter (fun row =>
                   UserPoints.mk (UserPoints.userId row)
                     (UserPoints.balance points + 50000)
                     (UserPoints.totalEarned points + 50000)
                     (UserPoints.totalWagered row)
                     (Some now))
                u) w)
| eff_game (tier : Tier) :
    List.find (active_in tier) (games w) = None ->
    effect w
      (insert_game
         (Game.mk (nextGameId w) (GameConfig.tier (GAME_CONFIGS tier))
            (GameConfig.slotCount (GAME_CONFIGS tier))
            (GameConfig.entryCost (GAME_CONFIGS tier))
            (GameConfig.edgePct (GAME_CONFIGS tier))
            None None None None None filling None) w)
| eff_slot (s : Slot.t) (g : Game.t) :
    game_of (Slot.gameId s) w = Some g ->
    ~ slot_occupied (Slot.gameId s) (Slot.slotNumber s) w ->
    Slot.entryCost s = Game.entryCost g ->
    (Slot.ownerType s = bot -> 1 <= Slot.slotNumber s <= Game.slotCount g) ->
    effect w (insert_slot s w)
| eff_settle (gameId ws : Z) (wt : WinnerType) (wid : string) (p hc now : Z) :
    effect w
      (with_games (update_game gameId (Game.set_result ws wt wid p hc now))
         (with_games (update_game gameId (Game.set_status spinning)) w))
| eff_emit (u : Update.t) :
    effect w (emit u w).

(** A computation all of whose runs are sequences of such writes. *)
Definition effects {A} (m : Eff A) : Prop :=
  forall w, rtc effect w (snd (m w)).

(** Each ledger record sits under its own user id and its balance is
    what was earned minus what was wagered. *)
Definition ledger_balanced (w : World) : Prop :=
  forall u p, userPoints w !! u = Some p ->
    UserPoints.userId p = u
    /\ UserPoints.balance p = UserPoints.totalEarned p - UserPoints.totalWagered p.

(** Game ids are distinct and below the auto-increment counter. *)
Definition ids_fresh (w : World) : Prop :=
  NoDup (List.map Game.id (games w))
  /\ forall g, In g (games w) -> 1 <= Game.id g < nextGameId w.

(** A game carries the configuration of its tier. *)
Definition configured (g : Game.t) : Prop :=
  Game.slotCount g = GameConfig.slotCount (GAME_CONFIGS (Game.tier g))
  /\ Game.entryCost g = GameConfig.entryCost (GAME_CONFIGS (Game.tier g))
  /\ Game.edgePct g = GameConfig.edgePct (GAME_CONFIGS (Game.tier g)).

(** The result columns are all unset while a game is filling and all
    set once it is completed. *)
Definition result_recorded (g : Game.t) : Prop :=
  match Game.status g with
  | filling =>
      Game.winningSlot g = None /\ Game.winnerType g = None
      /\ Game.winnerId g = None /\ Game.payout g = None
      /\ Game.houseCommission g = None /\ Game.completedAt g = None
  | completed =>
      is_Some (Game.winningSlot g) /\ is_Some (Game.winnerType g)
      /\ is_Some (Game.winnerId g) /\ is_Some (Game.payout g)
      /\ is_Some (Game.houseCommission g) /\ is_Some (Game.completedAt g)
  | _ => True
  end.

Definition slot_key (s : Slot.t) : Z * Z := (Slot.gameId s, Slot.slotNumber s).

(** No two slots share a game and a number. *)
Definition slots_unique (w : World) : Prop :=
  NoDup (List.map slot_key (gameSlots w)).

(** Every slot belongs to a stored game and was paid at that game's
    entry cost; a bot's slot lies on the board. *)
Definition slots_attached (w : World) : Prop :=
  forall s, In s (gameSlots w) ->
    exists g, game_of (Slot.gameId s) w = Some g
              /\ Slot.entryCost s = Game.entryCost g
              /\ (Slot.ownerType s = bot -> 1 <= Slot.slotNumber s <= Game.slotCount g).

Record well_formed (w : World) : Prop := mk_well_formed {
  wf_ids : ids_fresh w;
  wf_games : games_inv (games w);
  wf_config : Forall configured (games w);
  wf_results : Forall result_recorded (games w);
  wf_unique : slots_unique w;
  wf_attached : slots_attached w;
  wf_ledger : ledger_balanced w
}.

(** The same game at a later time: identity and configuration are
    kept, and a completed game stays completed. *)
Definition same_game (g g' : Game.t) : Prop :=
  Game.id g' = Game.id g /\ Game.tier g' = Game.tier g
  /\ Game.slotCount g' = Game.slotCount g
  /\ Game.entryCost g' = Game.entryCost g
  /\ Game.edgePct g' = Game.edgePct g
  /\ (Game.status g = completed -> Game.status g' = completed).

(** Nothing of the history is lost between two worlds: the old slots
    are still there, unchanged and in place, and every game can still be
    read. *)
Definition history_kept (w w' : World) : Prop :=
  (exists added, gameSlots w' = gameSlots w ++ added)
  /\ forall gameId g, game_of gameId w = Some g ->
       exists g', game_of gameId w' = Some g' /\ same_game g g'.

(** * Properties *)

(** ** The built-ins on sample values *)

Example parseInt_samples :
  parseInt "42" = Some 42 /\ parseInt " -7px" = Some (-7)
  /\ parseInt "0x1F" = Some 31 /\ parseInt "house" = None
  /\ parseInt "" = None /\ parseInt (toString 7) = Some 7.
Proof. repeat split; reflexivity. Qed.

(** White space is stripped by code point: a no-break space (U+00A0,
    the bytes 194 160) and a byte order mark (U+FEFF, 239 187 191) go,
    a zero width space (U+200B, 226 128 139) stays and gives [NaN]. *)
Example parseInt_white_space :
  let bytes := fold_right (fun n s => String (ascii_of_nat n) s) in
  parseInt (bytes "7" [194; 160]%nat) = Some 7
  /\ parseInt (bytes "-12" [239; 187; 191; 9]%nat) = Some (-12)
  /\ parseInt (bytes "7" [226; 128; 139]%nat) = None.
Proof. repeat split; vm_compute; reflexivity. Qed.

Example Math_round_samples :
  Math_round 2.5 = 3 /\ Math_round (-2.5) = -2
  /\ Math_round 2.4 = 2 /\ Math_round (-0.2) = 0
  /\ Math_round (of_int 60 * 0.1) = 6.
Proof. repeat split; vm_compute; reflexivity. Qed.

(** No bot label parses as a number. *)
Lemma bot_names_unparseable : Forall (fun name => parseInt name = None) BOT_NAMES.
Proof. repeat constructor. Qed.

(** ** The ledger *)

Lemma getOrCreateUserPoints_existing (userId : Z) (w : World) (p : UserPoints.t) :
  userPoints w !! userId = Some p ->
  getOrCreateUserPoints userId w = (Returned p, w).
Proof.
  intros H. unfold getOrCreateUserPoints, bind, gets. now rewrite H.
Qed.

Lemma getOrCreateUserPoints_fresh (userId : Z) (w : World) :
  userPoints w !! userId = None ->
  let fresh := UserPoints.mk userId 30000 30000 0 None in
  getOrCreateUserPoints userId w
  = (Returned fresh, with_userPoints (insert userId fresh) w).
Proof.
  intros H. unfold getOrCreateUserPoints, bind, gets, modify. rewrite H.
  cbn. now rewrite lookup_insert_eq.
Qed.

(** The call never throws, touches nothing but [userPoints], and leaves
    the record it returns stored under [userId]. *)
Lemma getOrCreateUserPoints_returns (userId : Z) (w : World) :
  exists p w',
    getOrCreateUserPoints userId w = (Returned p, w')
    /\ userPoints w' !! userId = Some p
    /\ games w' = games w /\ nextGameId w' = nextGameId w
    /\ gameSlots w' = gameSlots w /\ emitted w' = emitted w
    /\ (forall p0, userPoints w !! userId = Some p0 -> w' = w).
Proof.
  destruct (userPoints w !! userId) as [p|] eqn:E.
  - exists p, w. rewrite (getOrCreateUserPoints_existing _ _ _ E). tauto.
  - eexists _, _. rewrite (getOrCreateUserPoints_fresh _ _ E).
    split; [reflexivity|]. cbn. rewrite lookup_insert_eq.
    repeat split; congruence.
Qed.

(** [updateUserBalance] never throws and touches nothing but [userPoints]. *)
Lemma updateUserBalance_frame (userId amount : Z) (w : World) :
  exists b w',
    updateUserBalance userId amount w = (Returned b, w')
    /\ games w' = games w /\ nextGameId w' = nextGameId w
    /\ gameSlots w' = gameSlots w /\ emitted w' = emitted w.
Proof.
  destruct (getOrCreateUserPoints_returns userId w)
    as (p & w1 & Hget & _ & Hg & Hn & Hs & He & _).
  unfold updateUserBalance, bind, modify, ret. rewrite Hget. cbn.
  eexists _, _. split; [reflexivity|]. cbn. tauto.
Qed.

(** C10. The first [getUserPoints]/[getOrCreateUserPoints] call for a user
    without a record stores and returns the record with balance 30000,
    totalEarned 30000, totalWagered 0 and no lastDailyReward; for a user
    with a record it returns that record and changes nothing. *)
Theorem getOrCreateUserPoints_spec (userId : Z) (w : World) :
  (userPoints w !! userId = None ->
   exists w',
     getOrCreateUserPoints userId w
       = (Returned (UserPoints.mk userId 30000 30000 0 None), w')
     /\ getUserPoints userId w = getOrCreateUserPoints userId w
     /\ userPoints w' = <[userId := UserPoints.mk userId 30000 30000 0 None]> (userPoints w)
     /\ games w' = games w /\ gameSlots w' = gameSlots w)
  /\ (forall p, userPoints w !! userId = Some p ->
      getOrCreateUserPoints userId w = (Returned p, w)
      /\ getUserPoints userId w = (Returned p, w)).
Proof.
  split.
  - intros H. eexists. unfold getUserPoints.
    rewrite (getOrCreateUserPoints_fresh _ _ H). repeat split; reflexivity.
  - intros p H. unfold getUserPoints.
    now rewrite (getOrCreateUserPoints_existing _ _ _ H).
Qed.

Lemma getOrCreateUserPoints_spec_witness :
  userPoints initial !! 7 = None
  /\ exists w',
       getOrCreateUserPoints 7 initial
         = (Returned (UserPoints.mk 7 30000 30000 0 None), w')
       /\ getUserPoints 7 initial = getOrCreateUserPoints 7 initial
       /\ userPoints w' = <[7 := UserPoints.mk 7 30000 30000 0 None]> (userPoints initial)
       /\ games w' = games initial /\ gameSlots w' = gameSlots initial.
Proof.
  split; [reflexivity|].
  apply (proj1 (getOrCreateUserPoints_spec 7 initial)). reflexivity.
Defined.

(** C9. Two successive [applyDailyReward] calls at instants of the same
    calendar day: the second returns false and changes nothing; and when
    the user had not yet been rewarded that day, the first returns true
    and raises balance and totalEarned by exactly the bonus, once. *)
Theorem applyDailyReward_once_per_day
    (localMidnight : Z -> Z) (userId t1 t2 : Z) (w : World) :
  localMidnight t1 = localMidnight t2 ->
  (forall p last, userPoints w !! userId = Some p ->
     UserPoints.lastDailyReward p = Some last ->
     localMidnight last <> localMidnight t1) ->
  exists p0 w0 w1,
    getUserPoints userId w = (Returned p0, w0)
    /\ applyDailyReward localMidnight t1 userId w = (Returned true, w1)
    /\ userPoints w1 !! userId
       = Some (UserPoints.mk (UserPoints.userId p0)
                 (UserPoints.balance p0 + 50000)
                 (UserPoints.totalEarned p0 + 50000)
                 (UserPoints.totalWagered p0)
                 (Some t1))
    /\ applyDailyReward localMidnight t2 userId w1 = (Returned false, w1).
Proof.
  intros Hday Hnot.
  destruct (getOrCreateUserPoints_returns userId w)
    as (p0 & w0 & Hget & Hp0 & _ & _ & _ & _ & Hsame).
  assert (Hfirst :
    match UserPoints.lastDailyReward p0 with
    | Some lastReward => localMidnight t1 =? localMidnight lastReward
    | None => false
    end = false).
  { destruct (UserPoints.lastDailyReward p0) as [last|] eqn:El; [|reflexivity].
    apply Z.eqb_neq. intros Heq.
    destruct (userPoints w !! userId) as [q|] eqn:Eq.
    - rewrite (getOrCreateUserPoints_existing _ _ _ Eq) in Hget.
      injection Hget as -> ->. apply (Hnot p0 last); congruence.
    - rewrite (getOrCreateUserPoints_fresh _ _ Eq) in Hget.
      injection Hget as <- _. discriminate El. }
  eexists p0, w0, _. split; [exact Hget|].
  unfold applyDailyReward at 1. unfold bind at 1. rewrite Hget.
  rewrite Hfirst. unfold bind, modify, ret. cbn [fst snd].
  split; [reflexivity|]. cbn [userPoints with_userPoints].
  rewrite lookup_alter_eq, Hp0. cbn [fmap option_fmap option_map].
  split; [reflexivity|].
  unfold applyDailyReward, bind.
  erewrite getOrCreateUserPoints_existing
    by (cbn [userPoints with_userPoints]; rewrite lookup_alter_eq, Hp0; reflexivity).
  cbn [UserPoints.lastDailyReward]. rewrite Hday, Z.eqb_refl. reflexivity.
Qed.

Lemma applyDailyReward_once_per_day_witness :
  exists p0 w0 w1,
    getUserPoints 7 initial = (Returned p0, w0)
    /\ applyDailyReward (fun t => t / 86400000 * 86400000) 1000 7 initial
       = (Returned true, w1)
    /\ userPoints w1 !! 7
       = Some (UserPoints.mk (UserPoints.userId p0)
                 (UserPoints.balance p0 + 50000)
                 (UserPoints.totalEarned p0 + 50000)
                 (UserPoints.totalWagered p0)
                 (Some 1000))
    /\ applyDailyReward (fun t => t / 86400000 * 86400000) 5000 7 w1
       = (Returned false, w1).
Proof.
  apply (applyDailyReward_once_per_day
           (fun t => t / 86400000 * 86400000) 7 1000 5000 initial).
  - reflexivity.
  - intros p last H. cbn in H. rewrite lookup_empty in H. discriminate H.
Defined.

(** ** Reading a game *)

Lemma getGameState_eq (gameId : Z) (w : World) :
  getGameState gameId w
  = match game_of gameId w with
    | None => None
    | Some g =>
        Some (GameState.mk g (slots_of gameId w)
                (Z.of_nat (length (slots_of gameId w)))
                (Game.slotCount g - Z.of_nat (length (slots_of gameId w))))
    end.
Proof. reflexivity. Qed.

Lemma game_of_Some_known (gameId : Z) (w : World) (g : Game.t) :
  game_of gameId w = Some g -> In g (games w) /\ Game.id g = gameId.
Proof.
  unfold game_of. intros H. apply find_some in H as [Hin Hid].
  split; [exact Hin | lia].
Qed.

Lemma game_of_None_unknown (gameId : Z) (w : World) :
  game_of gameId w = None <-> ~ game_known gameId w.
Proof.
  unfold game_of, game_known. split.
  - intros H (g & Hin & Hid).
    pose proof (find_none _ _ H g Hin) as Hne. cbn in Hne. lia.
  - intros H. destruct (List.find _ _) as [g|] eqn:E; [|reflexivity].
    exfalso. apply H. exists g. apply find_some in E as [Hin Hid].
    split; [exact Hin | lia].
Qed.

Lemma game_known_game_of (gameId : Z) (w : World) :
  game_known gameId w -> exists g, game_of gameId w = Some g.
Proof.
  intros H. destruct (game_of gameId w) as [g|] eqn:E; [eauto|].
  apply game_of_None_unknown in E. contradiction.
Qed.

Lemma slots_of_In (gameId : Z) (w : World) (s : Slot.t) :
  In s (slots_of gameId w) <-> In s (gameSlots w) /\ Slot.gameId s = gameId.
Proof. unfold slots_of. rewrite filter_In. intuition lia. Qed.

Lemma slot_occupied_slots_of (gameId n : Z) (w : World) :
  slot_occupied gameId n w
  <-> exists s, In s (slots_of gameId w) /\ Slot.slotNumber s = n.
Proof.
  unfold slot_occupied. split.
  - intros (s & Hin & Hg & Hn). exists s. rewrite slots_of_In. tauto.
  - intros (s & Hin & Hn). apply slots_of_In in Hin. exists s. tauto.
Qed.

Lemma slotTaken_occupied (gameId n : Z) (w : World) :
  existsb (fun s => Slot.slotNumber s =? n) (slots_of gameId w) = true
  <-> slot_occupied gameId n w.
Proof.
  rewrite slot_occupied_slots_of, existsb_exists.
  split; intros (s & Hin & Hn); exists s; (split; [exact Hin | lia]).
Qed.

Lemma winnerSlot_occupied (gameId n : Z) (w : World) :
  slot_occupied gameId n w ->
  exists s, List.find (fun s => Slot.slotNumber s =? n) (slots_of gameId w) = Some s
            /\ In s (slots_of gameId w) /\ Slot.slotNumber s = n.
Proof.
  intros H. apply slot_occupied_slots_of in H as (s0 & Hin & Hn).
  destruct (List.find _ _) as [s|] eqn:E.
  - exists s. apply find_some in E as [Hs Hm]. repeat split; [exact Hs | lia].
  - pose proof (find_none _ _ E s0 Hin) as Hne. cbn in Hne. lia.
Qed.

(** ** [buySpot] *)

(** C3. [buySpot] throws [GameNotFound] for an unknown game id and
    [SlotTaken] when the game already has a slot with that number, leaving
    the world as it was; with a free slot and a balance below the entry
    cost it throws [InsufficientFunds], inserts no slot and leaves the
    user's ledger record as [getUserPoints] reads it. *)
Theorem buySpot_failures (rng : Rng) (now userId gameId slotNumber : Z) (w : World) :
  (~ game_known gameId w ->
   buySpot rng now userId gameId slotNumber w = (Thrown GameNotFound, w))
  /\ (game_known gameId w -> slot_occupied gameId slotNumber w ->
      buySpot rng now userId gameId slotNumber w = (Thrown SlotTaken, w))
  /\ (forall g p w0,
        game_of gameId w = Some g ->
        ~ slot_occupied gameId slotNumber w ->
        getUserPoints userId w = (Returned p, w0) ->
        UserPoints.balance p < Game.entryCost g ->
        buySpot rng now userId gameId slotNumber w = (Thrown InsufficientFunds, w0)
        /\ gameSlots w0 = gameSlots w
        /\ games w0 = games w
        /\ getUserPoints userId w0 = (Returned p, w0)
        /\ (forall q, userPoints w !! userId = Some q -> w0 = w)
        /\ (forall u, u <> userId -> userPoints w0 !! u = userPoints w !! u)).
Proof.
  unfold buySpot, bind, gets, throw. rewrite getGameState_eq.
  split; [|split].
  - intros H. apply game_of_None_unknown in H. now rewrite H.
  - intros Hk Hocc. destruct (game_known_game_of _ _ Hk) as [g Hg].
    rewrite Hg. cbn [GameState.slots].
    apply slotTaken_occupied in Hocc. now rewrite Hocc.
  - intros g p w0 Hg Hfree Hget Hlow. rewrite Hg. cbn [GameState.slots GameState.game].
    destruct (existsb _ _) eqn:Ex.
    { apply slotTaken_occupied in Ex. contradiction. }
    rewrite Hget. apply Z.ltb_lt in Hlow. rewrite Hlow.
    split; [reflexivity|].
    unfold getUserPoints in *.
    destruct (getOrCreateUserPoints_returns userId w)
      as (p' & w' & Hget' & Hp & Hgs & _ & Hsl & _ & Hsame).
    rewrite Hget in Hget'. injection Hget' as <- <-.
    repeat split; try assumption.
    + now apply getOrCreateUserPoints_existing.
    + intros u Hu. destruct (userPoints w !! userId) as [q|] eqn:Eq.
      * now rewrite (Hsame q eq_refl).
      * rewrite (getOrCreateUserPoints_fresh _ _ Eq) in Hget.
        injection Hget as _ <-. cbn. now rewrite lookup_insert_ne.
Qed.

Lemma buySpot_failures_witness :
  let w := mkWorld [Game.mk 1 high 6 25 (-20) None None None None None filling None]
             2 [] {[ 7 := UserPoints.mk 7 10 30000 29990 None ]} [] in
  buySpot (rng_of 0) 1000 7 1 3 w = (Thrown InsufficientFunds, w)
  /\ gameSlots w = gameSlots w
  /\ games w = games w
  /\ getUserPoints 7 w = (Returned (UserPoints.mk 7 10 30000 29990 None), w)
  /\ (forall q, userPoints w !! 7 = Some q -> w = w)
  /\ (forall u, u <> 7 -> userPoints w !! u = userPoints w !! u).
Proof.
  intros w.
  apply (proj2 (proj2 (buySpot_failures (rng_of 0) 1000 7 1 3 w))
           (Game.mk 1 high 6 25 (-20) None None None None None filling None)).
  - reflexivity.
  - intros (s & Hin & _). destruct Hin.
  - reflexivity.
  - cbn. lia.
Defined.

(** ** [addBotEntry] *)

Lemma size_list_to_set_le (l : list Z) :
  (size (list_to_set l : gset Z) <= length l)%nat.
Proof.
  induction l as [|x l IH]; cbn [length].
  - rewrite list_to_set_nil, size_empty. lia.
  - rewrite list_to_set_cons, size_union_alt, size_singleton.
    assert (Hle : (size (list_to_set l ∖ {[x]} : gset Z)
                   <= size (list_to_set l : gset Z))%nat).
    { apply subseteq_size, subseteq_difference_l. reflexivity. }
    lia.
Qed.

(** The first hit of a search through [m, m+1, ...] is in range, and
    everything before it was rejected. *)
Lemma find_seqZ_first (f : Z -> bool) (n : nat) :
  forall m e,
    List.find f (seqZ m (Z.of_nat n)) = Some e ->
    m <= e < m + Z.of_nat n /\ f e = true /\ forall k, m <= k < e -> f k = false.
Proof.
  induction n as [|n IH]; intros m e H.
  - discriminate H.
  - rewrite Nat2Z.inj_succ, seqZ_cons in H by lia. cbn [List.find] in H.
    replace (Z.pred (Z.succ (Z.of_nat n))) with (Z.of_nat n) in H by lia.
    destruct (f m) eqn:Fm.
    + injection H as <-. split; [lia|]. split; [exact Fm|]. intros k Hk. lia.
    + apply IH in H as (Hr & He & Hb). split; [lia|]. split; [exact He|].
      intros k Hk. destruct (Z.eq_dec k m) as [->|Hne]; [exact Fm|].
      apply Hb. lia.
Qed.

(** Pigeonhole: fewer entries than slots leaves a free number in
    [1 .. n], and the search returns the lowest one. *)
Lemma lowest_free_number (occupied : list Z) (n : Z) :
  Z.of_nat (length occupied) < n ->
  exists e,
    List.find (fun i => negb (bool_decide (i ∈ (list_to_set occupied : gset Z))))
              (seqZ 1 n) = Some e
    /\ 1 <= e <= n /\ ~ In e occupied
    /\ forall k, 1 <= k < e -> In k occupied.
Proof.
  intros Hlt.
  destruct (List.find _ _) as [e|] eqn:E.
  - exists e. split; [reflexivity|].
    rewrite <- (Z2Nat.id n) in E by lia.
    apply find_seqZ_first in E as (Hr & He & Hb).
    rewrite Z2Nat.id in Hr by lia.
    apply negb_true_iff, bool_decide_eq_false in He.
    rewrite elem_of_list_to_set, list_elem_of_In in He.
    split; [lia|]. split; [exact He|].
    intros k Hk. specialize (Hb k Hk).
    apply negb_false_iff, bool_decide_eq_true in Hb.
    now rewrite elem_of_list_to_set, list_elem_of_In in Hb.
  - exfalso.
    assert (Hsub : (list_to_set (seqZ 1 n) : gset Z) ⊆ list_to_set occupied).
    { intros k Hk. rewrite elem_of_list_to_set in Hk.
      assert (Hin : In k (seqZ 1 n)) by now apply list_elem_of_In.
      pose proof (find_none _ _ E k Hin) as Hf. cbn in Hf.
      now apply negb_false_iff, bool_decide_eq_true in Hf. }
    apply subseteq_size in Hsub.
    rewrite size_list_to_set in Hsub by apply NoDup_seqZ.
    rewrite length_seqZ in Hsub.
    pose proof (size_list_to_set_le occupied). lia.
Qed.

Lemma slotNumbers_occupied (gameId n : Z) (w : World) :
  In n (List.map Slot.slotNumber (slots_of gameId w)) <-> slot_occupied gameId n w.
Proof.
  rewrite slot_occupied_slots_of, in_map_iff.
  split; intros (s & H1 & H2); exists s; tauto.
Qed.

Lemma botName_in_pool (rng : Rng) :
  In (nth (Z.to_nat (random_index rng (Z.of_nat (length BOT_NAMES)))) BOT_NAMES "")
     BOT_NAMES.
Proof.
  apply nth_In.
  pose proof (random_index_range rng (Z.of_nat (length BOT_NAMES))) as H.
  cbn [length BOT_NAMES] in *. lia.
Qed.

(** C4. For an existing game, [addBotEntry] returns false and leaves the
    world untouched unless the game is [filling] with fewer slots than
    [slotCount]; under those preconditions it returns true and appends
    exactly one slot: a bot's, at the game's entry cost, on the lowest
    unoccupied number of [1 .. slotCount], with no change to the ledger. *)
Theorem addBotEntry_spec (rng : Rng) (gameId : Z) (w : World) (g : Game.t) :
  game_of gameId w = Some g ->
  (~ (Game.status g = filling
      /\ Z.of_nat (length (slots_of gameId w)) < Game.slotCount g) ->
   addBotEntry rng gameId w = (Returned false, w))
  /\ (Game.status g = filling ->
      Z.of_nat (length (slots_of gameId w)) < Game.slotCount g ->
      exists n botName w',
        addBotEntry rng gameId w = (Returned true, w')
        /\ gameSlots w'
           = gameSlots w ++ [Slot.mk gameId n bot botName (Game.entryCost g)]
        /\ games w' = games w
        /\ userPoints w' = userPoints w
        /\ In botName BOT_NAMES
        /\ 1 <= n <= Game.slotCount g
        /\ ~ slot_occupied gameId n w
        /\ (forall k, 1 <= k < n -> slot_occupied gameId k w)).
Proof.
  intros Hg. unfold addBotEntry, bind, gets, modify, ret.
  rewrite getGameState_eq, Hg.
  cbn [GameState.game GameState.filledCount GameState.slots].
  split.
  - intros Hpre. destruct (decide (Game.status g = filling)) as [Hs|Hs].
    + rewrite (bool_decide_eq_true_2 _ Hs). cbn [negb].
      destruct (Game.slotCount g <=? _) eqn:E; [reflexivity|].
      exfalso. apply Hpre. split; [exact Hs | lia].
    + now rewrite (bool_decide_eq_false_2 _ Hs).
  - intros Hs Hlt. rewrite (bool_decide_eq_true_2 _ Hs). cbn [negb].
    destruct (Game.slotCount g <=? _) eqn:E; [lia|].
    destruct (lowest_free_number (List.map Slot.slotNumber (slots_of gameId w))
                (Game.slotCount g)) as (e & Hfind & Hr & Hfree & Hbelow).
    { now rewrite length_map. }
    rewrite Hfind. destruct (e =? 0) eqn:E0; [lia|].
    eexists e, _, _. split; [reflexivity|].
    cbn [gameSlots games userPoints insert_slot].
    do 3 (split; [reflexivity|]).
    split; [apply botName_in_pool|]. split; [lia|]. split.
    + now rewrite <- slotNumbers_occupied.
    + intros k Hk. apply slotNumbers_occupied. now apply Hbelow.
Qed.

Lemma addBotEntry_spec_witness :
  let w := mkWorld [Game.mk 1 high 6 25 (-20) None None None None None filling None]
             2 [Slot.mk 1 1 player "7" 25; Slot.mk 1 3 bot "T" 25] ∅ [] in
  exists n botName w',
    addBotEntry (rng_of 4) 1 w = (Returned true, w')
    /\ gameSlots w' = gameSlots w ++ [Slot.mk 1 n bot botName 25]
    /\ games w' = games w
    /\ userPoints w' = userPoints w
    /\ In botName BOT_NAMES
    /\ 1 <= n <= 6
    /\ ~ slot_occupied 1 n w
    /\ (forall k, 1 <= k < n -> slot_occupied 1 k w).
Proof.
  intros w.
  apply (proj2 (addBotEntry_spec (rng_of 4) 1 w
                  (Game.mk 1 high 6 25 (-20) None None None None None filling None)
                  eq_refl)).
  - reflexivity.
  - cbn. lia.
Defined.

(** ** [spinGame] *)

Lemma find_update_game (gameId : Z) (f : Game.t -> Game.t) (gs : list Game.t) :
  (forall g, Game.id (f g) = Game.id g) ->
  List.find (fun g => Game.id g =? gameId) (update_game gameId f gs)
  = option_map f (List.find (fun g => Game.id g =? gameId) gs).
Proof.
  intros Hid. induction gs as [|g gs IH]; [reflexivity|].
  cbn [update_game List.map List.find].
  destruct (Game.id g =? gameId) eqn:E.
  - now rewrite Hid, E.
  - rewrite E. exact IH.
Qed.

(** What a settlement leaves behind, for a game that exists: the game
    rows are rewritten twice, the slots are untouched, and the ledger is
    touched only through the credit of a player whose id parses. *)
Lemma spinGame_run (rng : Rng) (now gameId : Z) (w : World) (g : Game.t) :
  game_of gameId w = Some g ->
  let n := Z.of_nat (length (slots_of gameId w)) in
  let players := Z.of_nat (length (List.filter is_player (slots_of gameId w))) in
  exists wt wid p w',
    match winnerSlot_of rng gameId g w with
    | None => wt = house_wins /\ wid = "house" /\ p = 0
    | Some s =>
        wt = winner_of_owner (Slot.ownerType s) /\ wid = Slot.ownerId s
        /\ p = if (0 <? players) && bool_decide (wt = player_wins)
               then rounded_payout n players (Game.slotCount g)
                      (Game.entryCost g) (Game.edgePct g)
               else 0
    end
    /\ spinGame rng now gameId w = (Returned true, w')
    /\ games w'
       = update_game gameId
           (Game.set_result (random_index rng (Game.slotCount g) + 1) wt wid
              (if bool_decide (wt = player_wins) then p else 0)
              (commission n (Game.entryCost g)) now)
           (update_game gameId (Game.set_status spinning) (games w))
    /\ gameSlots w' = gameSlots w
    /\ nextGameId w' = nextGameId w
    /\ (wt <> player_wins \/ parseInt wid = None -> userPoints w' = userPoints w).
Proof.
  intros Hg n players.
  unfold spinGame, bind at 1, gets at 1. rewrite getGameState_eq, Hg.
  cbn [GameState.game GameState.slots].
  unfold winnerSlot_of.
  set (sel := List.find _ (slots_of gameId w)).
  set (hc := Math_round _).
  destruct sel as [s|].
  - set (wt := winner_of_owner (Slot.ownerType s)).
    set (p := if _ && bool_decide (wt = player_wins) then _ else 0).
    exists wt, (Slot.ownerId s), p.
    unfold bind, modify, gets, ret. cbn [fst snd].
    destruct (bool_decide (wt = player_wins)) eqn:Ewt.
    + destruct (parseInt (Slot.ownerId s)) as [u|] eqn:Eparse.
      * match goal with
        | |- context [updateUserBalance u p ?w1] =>
            destruct (updateUserBalance_frame u p w1)
              as (b & w2 & Hupd & Hgs & Hn & Hsl & He)
        end.
        rewrite Hupd.
        destruct (getGameState gameId w2); eexists;
          (split; [repeat split; reflexivity|]);
          (split; [reflexivity|]); cbn;
          (split; [exact Hgs|]); (split; [exact Hsl|]); (split; [exact Hn|]);
          intros [Hne|Hnone]; [| discriminate Hnone | | discriminate Hnone];
          apply bool_decide_eq_true in Ewt; contradiction.
      * destruct (getGameState gameId _); eexists;
          (split; [repeat split; reflexivity|]);
          (split; [reflexivity|]); cbn; repeat split; reflexivity.
    + destruct (getGameState gameId _); eexists;
        (split; [repeat split; reflexivity|]);
        (split; [reflexivity|]); cbn; repeat split; reflexivity.
  - exists house_wins, "house", 0.
    unfold bind, modify, gets, ret. cbn [fst snd].
    rewrite (bool_decide_eq_false_2 (house_wins = player_wins)) by discriminate.
    destruct (getGameState gameId _); eexists;
      (split; [repeat split; reflexivity|]);
      (split; [reflexivity|]); cbn; repeat split; reflexivity.
Qed.

(** The game row read back after a settlement. *)
Lemma spinGame_persisted (rng : Rng) (now gameId : Z) (w : World) (g : Game.t) :
  game_of gameId w = Some g ->
  let n := Z.of_nat (length (slots_of gameId w)) in
  let players := Z.of_nat (length (List.filter is_player (slots_of gameId w))) in
  exists wt wid p w',
    match winnerSlot_of rng gameId g w with
    | None => wt = house_wins /\ wid = "house" /\ p = 0
    | Some s =>
        wt = winner_of_owner (Slot.ownerType s) /\ wid = Slot.ownerId s
        /\ p = if (0 <? players) && bool_decide (wt = player_wins)
               then rounded_payout n players (Game.slotCount g)
                      (Game.entryCost g) (Game.edgePct g)
               else 0
    end
    /\ spinGame rng now gameId w = (Returned true, w')
    /\ game_of gameId w'
       = Some (Game.mk (Game.id g) (Game.tier g) (Game.slotCount g)
                 (Game.entryCost g) (Game.edgePct g)
                 (Some (random_index rng (Game.slotCount g) + 1))
                 (Some wt) (Some wid)
                 (Some (if bool_decide (wt = player_wins) then p else 0))
                 (Some (commission n (Game.entryCost g)))
                 completed (Some now))
    /\ gameSlots w' = gameSlots w
    /\ (wt <> player_wins \/ parseInt wid = None -> userPoints w' = userPoints w).
Proof.
  intros Hg n players.
  destruct (spinGame_run rng now gameId w g Hg)
    as (wt & wid & p & w' & Hwin & Hrun & Hgames & Hslots & _ & Hledger).
  exists wt, wid, p, w'. repeat (split; [assumption|]).
  split; [|split; assumption].
  unfold game_of in *. rewrite Hgames.
  rewrite !find_update_game by reflexivity. rewrite Hg. reflexivity.
Qed.

Lemma payout_high_tier_full : rounded_payout 6 6 6 25 (-20) = 120.
Proof. vm_compute. reflexivity. Qed.

Lemma commission_high_tier_full : commission 6 25 = 15.
Proof. vm_compute. reflexivity. Qed.

Lemma commission_low_tier_full : commission 12 5 = 6.
Proof. vm_compute. reflexivity. Qed.

Lemma all_players_filter (ss : list Slot.t) :
  (forall s, In s ss -> Slot.ownerType s = player) ->
  List.filter is_player ss = ss.
Proof.
  induction ss as [|s ss IH]; intros H; [reflexivity|].
  cbn [List.filter]. unfold is_player at 1.
  rewrite bool_decide_eq_true_2 by (apply H; now left).
  f_equal. apply IH. intros s' Hs'. apply H. now right.
Qed.

(** C1. A game with slotCount 6, entryCost 25 and edgePct -20 whose six
    slots are all players': when the drawn number is occupied, the
    settlement persists payout 120 and houseCommission 15. *)
Theorem spinGame_high_tier_player_win
    (rng : Rng) (now gameId : Z) (w : World) (g : Game.t) :
  game_of gameId w = Some g ->
  Game.slotCount g = 6 -> Game.entryCost g = 25 -> Game.edgePct g = -20 ->
  length (slots_of gameId w) = 6%nat ->
  (forall s, In s (slots_of gameId w) -> Slot.ownerType s = player) ->
  slot_occupied gameId (random_index rng 6 + 1) w ->
  exists w' g',
    spinGame rng now gameId w = (Returned true, w')
    /\ game_of gameId w' = Some g'
    /\ Game.winnerType g' = Some player_wins
    /\ Game.payout g' = Some 120
    /\ Game.houseCommission g' = Some 15
    /\ Game.status g' = completed.
Proof.
  intros Hg Hcount Hcost Hedge Hlen Hall Hocc.
  destruct (spinGame_persisted rng now gameId w g Hg)
    as (wt & wid & p & w' & Hwin & Hrun & Hread & _ & _).
  destruct (winnerSlot_occupied _ _ _ Hocc) as (s & Hfind & Hin & _).
  unfold winnerSlot_of in Hwin. rewrite Hcount, Hfind in Hwin.
  destruct Hwin as (Hwt & _ & Hp).
  rewrite (Hall s Hin) in Hwt. cbn in Hwt. subst wt.
  rewrite (all_players_filter _ Hall), Hlen, Hcost, Hedge in Hp.
  rewrite bool_decide_eq_true_2 in Hp by reflexivity.
  change (Z.of_nat 6) with 6 in Hp. cbn [Z.ltb Z.compare andb] in Hp.
  rewrite payout_high_tier_full in Hp. subst p.
  rewrite Hlen, Hcost in Hread. change (Z.of_nat 6) with 6 in Hread.
  rewrite commission_high_tier_full in Hread.
  rewrite bool_decide_eq_true_2 in Hread by reflexivity.
  eexists w', _. split; [exact Hrun|]. split; [exact Hread|].
  repeat split.
Qed.

(** C7. When the slot found on the drawn number is a bot's, the
    settlement persists winnerType bot, payout 0 and the rounded tenth of
    the pot as houseCommission (6 for twelve slots at entry cost 5), and
    no ledger record changes. *)
Theorem spinGame_bot_win
    (rng : Rng) (now gameId : Z) (w : World) (g : Game.t) (s : Slot.t) :
  game_of gameId w = Some g ->
  winnerSlot_of rng gameId g w = Some s ->
  Slot.ownerType s = bot ->
  exists w' g',
    spinGame rng now gameId w = (Returned true, w')
    /\ game_of gameId w' = Some g'
    /\ Game.winnerType g' = Some bot_wins
    /\ Game.payout g' = Some 0
    /\ Game.houseCommission g'
       = Some (commission (Z.of_nat (length (slots_of gameId w))) (Game.entryCost g))
    /\ (length (slots_of gameId w) = 12%nat -> Game.entryCost g = 5 ->
        Game.houseCommission g' = Some 6)
    /\ userPoints w' = userPoints w.
Proof.
  intros Hg Hfind Hbot.
  destruct (spinGame_persisted rng now gameId w g Hg)
    as (wt & wid & p & w' & Hwin & Hrun & Hread & _ & Hledger).
  rewrite Hfind, Hbot in Hwin. destruct Hwin as (Hwt & _ & _).
  cbn in Hwt. subst wt.
  rewrite bool_decide_eq_false_2 in Hread by discriminate.
  eexists w', _. split; [exact Hrun|]. split; [exact Hread|].
  cbn [Game.winnerType Game.payout Game.houseCommission].
  do 3 (split; [reflexivity|]). split.
  - intros Hlen Hcost. rewrite Hlen, Hcost. change (Z.of_nat 12) with 12.
    now rewrite commission_low_tier_full.
  - apply Hledger. left. discriminate.
Qed.

(** C8. When the slot found on the drawn number is a player's but its
    ownerId does not parse as a number, the settlement still returns
    true, persists status completed with the houseCommission, and changes
    no ledger record. *)
Theorem spinGame_unparseable_winner
    (rng : Rng) (now gameId : Z) (w : World) (g : Game.t) (s : Slot.t) :
  game_of gameId w = Some g ->
  winnerSlot_of rng gameId g w = Some s ->
  Slot.ownerType s = player ->
  parseInt (Slot.ownerId s) = None ->
  exists w' g',
    spinGame rng now gameId w = (Returned true, w')
    /\ game_of gameId w' = Some g'
    /\ Game.status g' = completed
    /\ Game.winnerType g' = Some player_wins
    /\ Game.winnerId g' = Some (Slot.ownerId s)
    /\ Game.houseCommission g'
       = Some (commission (Z.of_nat (length (slots_of gameId w))) (Game.entryCost g))
    /\ userPoints w' = userPoints w.
Proof.
  intros Hg Hfind Hplayer Hnan.
  destruct (spinGame_persisted rng now gameId w g Hg)
    as (wt & wid & p & w' & Hwin & Hrun & Hread & _ & Hledger).
  rewrite Hfind, Hplayer in Hwin. destruct Hwin as (Hwt & Hwid & _).
  cbn in Hwt. subst wt wid.
  eexists w', _. split; [exact Hrun|]. split; [exact Hread|].
  cbn [Game.status Game.winnerType Game.winnerId Game.houseCommission].
  do 4 (split; [reflexivity|]).
  apply Hledger. now right.
Qed.

Lemma spinGame_high_tier_player_win_witness :
  let g := Game.mk 1 high 6 25 (-20) None None None None None filling None in
  let w := mkWorld [g] 2
             [Slot.mk 1 1 player "7" 25; Slot.mk 1 2 player "7" 25;
              Slot.mk 1 3 player "8" 25; Slot.mk 1 4 player "8" 25;
              Slot.mk 1 5 player "9" 25; Slot.mk 1 6 player "9" 25] ∅ [] in
  exists w' g',
    spinGame (rng_of 2) 1000 1 w = (Returned true, w')
    /\ game_of 1 w' = Some g'
    /\ Game.winnerType g' = Some player_wins
    /\ Game.payout g' = Some 120
    /\ Game.houseCommission g' = Some 15
    /\ Game.status g' = completed.
Proof.
  intros g w.
  apply (spinGame_high_tier_player_win (rng_of 2) 1000 1 w g);
    try reflexivity.
  - intros s Hs. cbn in Hs.
    repeat (destruct Hs as [<-|Hs]; [reflexivity|]). destruct Hs.
  - exists (Slot.mk 1 3 player "8" 25). cbn. tauto.
Defined.

Lemma spinGame_bot_win_witness :
  let g := Game.mk 1 low 12 5 (-2) None None None None None filling None in
  let w := mkWorld [g] 2
             [Slot.mk 1 1 player "7" 5; Slot.mk 1 2 player "8" 5;
              Slot.mk 1 3 player "9" 5; Slot.mk 1 4 bot "T" 5;
              Slot.mk 1 5 bot "B" 5; Slot.mk 1 6 bot "J" 5;
              Slot.mk 1 7 bot "P" 5; Slot.mk 1 8 bot "K" 5;
              Slot.mk 1 9 bot "M" 5; Slot.mk 1 10 bot "S" 5;
              Slot.mk 1 11 bot "L" 5; Slot.mk 1 12 bot "R" 5]
             {[ 7 := UserPoints.mk 7 29995 30000 5 None ]} [] in
  exists w' g',
    spinGame (rng_of 5) 1000 1 w = (Returned true, w')
    /\ game_of 1 w' = Some g'
    /\ Game.winnerType g' = Some bot_wins
    /\ Game.payout g' = Some 0
    /\ Game.houseCommission g'
       = Some (commission (Z.of_nat (length (slots_of 1 w))) (Game.entryCost g))
    /\ (length (slots_of 1 w) = 12%nat -> Game.entryCost g = 5 ->
        Game.houseCommission g' = Some 6)
    /\ userPoints w' = userPoints w.
Proof.
  intros g w.
  apply (spinGame_bot_win (rng_of 5) 1000 1 w g (Slot.mk 1 6 bot "J" 5));
    reflexivity.
Defined.

Lemma spinGame_unparseable_winner_witness :
  let g := Game.mk 1 high 6 25 (-20) None None None None None filling None in
  let w := mkWorld [g] 2 [Slot.mk 1 1 player "guest" 25]
             {[ 7 := UserPoints.mk 7 30000 30000 0 None ]} [] in
  exists w' g',
    spinGame (rng_of 0) 1000 1 w = (Returned true, w')
    /\ game_of 1 w' = Some g'
    /\ Game.status g' = completed
    /\ Game.winnerType g' = Some player_wins
    /\ Game.winnerId g' = Some "guest"
    /\ Game.houseCommission g'
       = Some (commission (Z.of_nat (length (slots_of 1 w))) (Game.entryCost g))
    /\ userPoints w' = userPoints w.
Proof.
  intros g w.
  apply (spinGame_unparseable_winner (rng_of 0) 1000 1 w g
           (Slot.mk 1 1 player "guest" 25));
    reflexivity.
Defined.

(** ** One active game per tier *)

Lemma update_game_twice (gameId : Z) (f h : Game.t -> Game.t) (gs : list Game.t) :
  (forall g, Game.id (h g) = Game.id g) ->
  update_game gameId f (update_game gameId h gs)
  = update_game gameId (fun g => f (h g)) gs.
Proof.
  intros Hid. unfold update_game. rewrite List.map_map.
  apply List.map_ext. intros g.
  destruct (Game.id g =? gameId) eqn:E.
  - now rewrite Hid, E.
  - now rewrite E.
Qed.

Lemma games_inv_settle (gameId : Z) (f : Game.t -> Game.t) (gs : list Game.t) :
  (forall g, Game.status (f g) = completed) ->
  games_inv gs -> games_inv (update_game gameId f gs).
Proof.
  intros Hdone [Hst Hone]. split.
  - rewrite List.Forall_forall in *. intros g' Hin.
    unfold update_game in Hin. apply in_map_iff in Hin as (g & <- & Hin).
    destruct (Game.id g =? gameId); [right; apply Hdone | now apply Hst].
  - intros tier. specialize (Hone tier).
    assert (Hle : (length (List.filter (active_in tier) (update_game gameId f gs))
                   <= length (List.filter (active_in tier) gs))%nat).
    { clear Hst Hone. induction gs as [|g gs IH]; [reflexivity|].
      cbn [update_game List.map List.filter].
      destruct (Game.id g =? gameId).
      - assert (Hoff : active_in tier (f g) = false).
        { unfold active_in, is_active. rewrite Hdone.
          now rewrite andb_false_r. }
        rewrite Hoff. fold (update_game gameId f gs).
        destruct (active_in tier g); cbn [length]; lia.
      - fold (update_game gameId f gs).
        destruct (active_in tier g); cbn [length]; lia. }
    lia.
Qed.

Lemma games_inv_create (tier : Tier) (n : Z) (gs : list Game.t) :
  List.find (active_in tier) gs = None ->
  games_inv gs ->
  games_inv (gs ++ [Game.mk n (GameConfig.tier (GAME_CONFIGS tier))
                      (GameConfig.slotCount (GAME_CONFIGS tier))
                      (GameConfig.entryCost (GAME_CONFIGS tier))
                      (GameConfig.edgePct (GAME_CONFIGS tier))
                      None None None None None filling None]).
Proof.
  intros Hnone [Hst Hone]. split.
  - apply Forall_app. split; [exact Hst|]. repeat constructor.
  - intros tier'. rewrite List.filter_app, length_app.
    destruct (decide (tier' = tier)) as [->|Hne].
    + assert (Hnil : List.filter (active_in tier) gs = []).
      { clear Hst Hone. induction gs as [|g gs IH]; [reflexivity|].
        cbn [List.find List.filter] in *.
        destruct (active_in tier g); [discriminate Hnone|]. now apply IH. }
      rewrite Hnil. cbn [List.filter].
      destruct (active_in tier _); cbn [length]; lia.
    + specialize (Hone tier'). cbn [List.filter].
      assert (Hoff : active_in tier'
                (Game.mk n (GameConfig.tier (GAME_CONFIGS tier))
                   (GameConfig.slotCount (GAME_CONFIGS tier))
                   (GameConfig.entryCost (GAME_CONFIGS tier))
                   (GameConfig.edgePct (GAME_CONFIGS tier))
                   None None None None None filling None) = false).
      { unfold active_in. cbn [Game.tier].
        rewrite bool_decide_eq_false_2; [reflexivity|].
        destruct tier; cbn; congruence. }
      rewrite Hoff. cbn [length]. lia.
Qed.









(** Cut at its awaits and run with nothing in between,
    [getOrCreateActiveGame] is the call itself. *)
Lemma getOrCreateActiveGame_task_complete (tier : Tier) (w : World) :
  complete (getOrCreateActiveGame_task tier) w = getOrCreateActiveGame tier w.
Proof.
  unfold getOrCreateActiveGame, bind, gets. cbn [complete getOrCreateActiveGame_task].
  destruct (List.find _ (games w)) as [g|]; [reflexivity|].
  cbn [complete]. destruct (createGame tier w) as [[insertId|e] w']; reflexivity.
Qed.


(** The same two calls one after the other share one game. *)
Example consecutive_calls_share_one_game :
  let '(calls, w) :=
    interleave [0; 0; 1; 1]%nat
      [getOrCreateActiveGame_task high; getOrCreateActiveGame_task high]
      initial in
  calls = [Finished 1; Finished 1]
  /\ List.map Game.status (games w) = [filling].
Proof. cbn. repeat split. Qed.

(** ** Where the code departs from the specification *)

(** C2. [spinGame] has no status guard: called on the completed game of
    [bought_out] at instant 3000 with the draw on slot 2, it returns true,
    overwrites winningSlot and completedAt, and credits the winner a
    second time. *)
Theorem spinGame_completed_resettles :
  game_of 1 bought_out
  = Some (Game.mk 1 high 6 25 (-20) (Some 1) (Some player_wins) (Some "7")
            (Some 120) (Some 15) completed (Some 2000))
  /\ userPoints bought_out !! 7 = Some (UserPoints.mk 7 29970 30120 150 None)
  /\ fst (spinGame (rng_of 1) 3000 1 bought_out) = Returned true
  /\ game_of 1 (snd (spinGame (rng_of 1) 3000 1 bought_out))
     = Some (Game.mk 1 high 6 25 (-20) (Some 2) (Some player_wins) (Some "7")
               (Some 120) (Some 15) completed (Some 3000))
  /\ userPoints (snd (spinGame (rng_of 1) 3000 1 bought_out)) !! 7
     = Some (UserPoints.mk 7 30090 30240 150 None).
Proof. repeat split; vm_compute; reflexivity. Qed.

(** C5. [buySpot] stores whatever slot number it is given: on a fresh
    high-tier game, which has six slots, buying number 7 succeeds,
    debits the entry cost and inserts a slot numbered 7, so not every
    slot of the resulting world lies on its game's board. *)
Theorem buySpot_out_of_range :
  let w0 := run (GetOrCreateActiveGame high) initial in
  let w := snd (buySpot (rng_of 0) 1000 7 1 7 w0) in
  option_map Game.slotCount (game_of 1 w) = Some 6
  /\ fst (buySpot (rng_of 0) 1000 7 1 7 w0)
     = Returned (BuyResult.mk true "Spot purchased!" 29975)
  /\ gameSlots w = [Slot.mk 1 7 player "7" 25]
  /\ userPoints w !! 7 = Some (UserPoints.mk 7 29975 30000 25 None)
  /\ ~ (forall s, In s (gameSlots w) -> on_board w s).
Proof.
  intros w0 w. do 4 (split; [vm_compute; reflexivity|]).
  intros Hall. destruct (Hall (Slot.mk 1 7 player "7" 25)) as (g & Hg & Hr).
  - now left.
  - vm_compute in Hg. injection Hg as <-. cbn in Hr. lia.
Qed.

(** * Further properties *)

(** ** Every call is a sequence of guarded writes *)

Lemma effects_ret {A} (a : A) : effects (ret a).
Proof. intros w. apply rtc_refl. Qed.

Lemma effects_throw {A} (e : Err) : effects (@throw A e).
Proof. intros w. apply rtc_refl. Qed.

Lemma effects_gets {A} (f : World -> A) : effects (gets f).
Proof. intros w. apply rtc_refl. Qed.

Lemma effects_modify (f : World -> World) :
  (forall w, effect w (f w)) -> effects (modify f).
Proof. intros H w. apply rtc_once, H. Qed.

Lemma effects_bind {A B} (m : Eff A) (k : A -> Eff B) :
  effects m -> (forall a, effects (k a)) -> effects (bind m k).
Proof.
  intros Hm Hk w. unfold bind. specialize (Hm w).
  destruct (m w) as [[a|e] w1]; cbn [snd] in *; [|exact Hm].
  eapply rtc_trans; [exact Hm | apply Hk].
Qed.

Lemma effects_catch_log (m : Eff unit) : effects m -> effects (catch_log m).
Proof.
  intros Hm w. unfold catch_log. specialize (Hm w).
  destruct (m w) as [[a|e] w1]; exact Hm.
Qed.

Lemma getOrCreateUserPoints_effects (userId : Z) :
  effects (getOrCreateUserPoints userId).
Proof.
  intros w. destruct (userPoints w !! userId) as [p|] eqn:E.
  - rewrite (getOrCreateUserPoints_existing _ _ _ E). apply rtc_refl.
  - rewrite (getOrCreateUserPoints_fresh _ _ E). apply rtc_once.
    now apply eff_user.
Qed.

Lemma updateUserBalance_effects (userId amount : Z) :
  effects (updateUserBalance userId amount).
Proof.
  intros w. unfold updateUserBalance, bind at 1.
  pose proof (getOrCreateUserPoints_effects userId w) as Hget.
  destruct (getOrCreateUserPoints_returns userId w)
    as (p & w1 & Hrun & Hp & _).
  rewrite Hrun in *. cbn [snd] in Hget.
  unfold bind, modify, ret. cbn [snd].
  eapply rtc_r; [exact Hget|]. now apply eff_balance.
Qed.

Lemma applyDailyReward_effects (localMidnight : Z -> Z) (now userId : Z) :
  effects (applyDailyReward localMidnight now userId).
Proof.
  intros w. unfold applyDailyReward, bind at 1.
  pose proof (getOrCreateUserPoints_effects userId w) as Hget.
  destruct (getOrCreateUserPoints_returns userId w)
    as (p & w1 & Hrun & Hp & _).
  rewrite Hrun in *. cbn [snd] in Hget.
  destruct (match UserPoints.lastDailyReward p with
            | Some lastReward => localMidnight now =? localMidnight lastReward
            | None => false
            end); [exact Hget|].
  unfold bind, modify, ret. cbn [snd].
  eapply rtc_r; [exact Hget|]. now apply eff_reward.
Qed.

Lemma getOrCreateActiveGame_effects (tier : Tier) :
  effects (getOrCreateActiveGame tier).
Proof.
  intros w. unfold getOrCreateActiveGame, bind, gets.
  destruct (List.find _ (games w)) as [g|] eqn:E; [apply rtc_refl|].
  unfold createGame, bind, gets, modify, ret. cbn [snd].
  apply rtc_once. now apply eff_game.
Qed.

Lemma addBotEntry_effects (rng : Rng) (gameId : Z) :
  effects (addBotEntry rng gameId).
Proof.
  intros w. unfold addBotEntry, bind, gets, modify, ret.
  rewrite getGameState_eq.
  destruct (game_of gameId w) as [g|] eqn:Hg; [|apply rtc_refl].
  cbn [GameState.game GameState.filledCount GameState.slots].
  destruct (negb _); [apply rtc_refl|].
  destruct (_ <=? _) eqn:Efull; [apply rtc_refl|].
  destruct (lowest_free_number (List.map Slot.slotNumber (slots_of gameId w))
              (Game.slotCount g)) as (e & Hfind & Hr & Hfree & _).
  { rewrite length_map. lia. }
  rewrite Hfind. destruct (e =? 0); [apply rtc_refl|]. cbn [snd].
  apply rtc_once. apply eff_slot with (g := g); cbn; try tauto.
  now rewrite <- slotNumbers_occupied.
Qed.

Lemma spinGame_effects (rng : Rng) (now gameId : Z) :
  effects (spinGame rng now gameId).
Proof.
  intros w. unfold spinGame, bind at 1, gets at 1.
  destruct (getGameState gameId w) as [st|]; [|apply rtc_refl].
  unfold bind at 1, modify at 1.
  destruct (List.find _ _) as [s|]; cbv beta iota zeta;
    unfold bind at 1, modify at 1;
    (eapply rtc_l; [apply eff_settle|]);
    (apply effects_bind;
     [ destruct (bool_decide _); [|apply effects_ret];
       destruct (parseInt _); [|apply effects_ret];
       apply effects_bind; [apply updateUserBalance_effects|];
       intros _; apply effects_ret
     | intros _; apply effects_bind; [apply effects_gets|];
       intros [fs|]; (apply effects_bind; [|intros _; apply effects_ret]);
       [ apply effects_modify; intros w'; apply eff_emit
       | apply effects_ret ] ]).
Qed.

Lemma checkAndSpinIfFull_effects (rng : Rng) (now gameId : Z) :
  effects (checkAndSpinIfFull rng now gameId).
Proof.
  unfold checkAndSpinIfFull. apply effects_bind; [apply effects_gets|].
  intros [st|]; [|apply effects_ret].
  destruct (_ <? _); [apply effects_ret | apply spinGame_effects].
Qed.

Lemma buySpot_effects (rng : Rng) (now userId gameId slotNumber : Z) :
  effects (buySpot rng now userId gameId slotNumber).
Proof.
  intros w. unfold buySpot, bind at 1, gets at 1. rewrite getGameState_eq.
  destruct (game_of gameId w) as [g|] eqn:Hg; [|apply rtc_refl].
  cbn [GameState.game GameState.slots].
  destruct (existsb _ _) eqn:Etaken; [apply rtc_refl|].
  unfold getUserPoints, bind at 1.
  pose proof (getOrCreateUserPoints_effects userId w) as Hget.
  destruct (getOrCreateUserPoints_returns userId w)
    as (p & w0 & Hrun & _ & Hg0 & _ & Hs0 & _).
  rewrite Hrun in *. cbn [snd] in Hget.
  destruct (_ <? _); [exact Hget|].
  unfold bind at 1.
  pose proof (updateUserBalance_effects userId (- Game.entryCost g) w0) as Hupd.
  destruct (updateUserBalance_frame userId (- Game.entryCost g) w0)
    as (b & w1 & Hrun1 & Hg1 & _ & Hs1 & _).
  rewrite Hrun1 in *. cbn [snd] in Hupd.
  unfold bind at 1, modify at 1.
  eapply rtc_trans; [exact Hget|].
  eapply rtc_trans; [exact Hupd|].
  eapply rtc_l; cycle 1.
  - apply effects_bind; [apply checkAndSpinIfFull_effects|].
    intros _. apply effects_ret.
  - apply eff_slot with (g := g); cbn [Slot.gameId Slot.slotNumber Slot.entryCost
                                       Slot.ownerType].
    + unfold game_of in *. now rewrite Hg1, Hg0.
    + intros Hocc. apply Bool.not_true_iff_false in Etaken. apply Etaken.
      apply slotTaken_occupied. unfold slot_occupied in *.
      now rewrite Hs1, Hs0 in Hocc.
    + reflexivity.
    + discriminate.
Qed.

Lemma addBots_effects (rngs : nat -> Rng) (spin : Rng) (now gameId : Z)
    (remaining : nat) :
  forall i, effects (addBots rngs spin now gameId i remaining).
Proof.
  induction remaining as [|k IH]; intros i; cbn [addBots]; [apply effects_ret|].
  apply effects_bind; [apply addBotEntry_effects|].
  intros [|]; [|apply IH].
  apply effects_bind; [apply effects_gets|].
  intros [st|]; [|apply IH].
  apply effects_bind; [apply effects_modify; intros w; apply eff_emit|].
  intros _. destruct (_ <=? _); [|apply IH].
  apply effects_bind; [apply checkAndSpinIfFull_effects|].
  intros _. apply effects_ret.
Qed.

Lemma tierTick_effects (rngs : nat -> Rng) (spin : Rng) (now : Z) (tier : Tier) :
  effects (tierTick rngs spin now tier).
Proof.
  unfold tierTick. apply effects_catch_log.
  apply effects_bind; [apply getOrCreateActiveGame_effects|].
  intros gameId. apply effects_bind; [apply effects_gets|].
  intros [st|]; [|apply effects_ret].
  destruct (_ <=? _); [|apply addBots_effects].
  apply effects_bind; [apply checkAndSpinIfFull_effects|].
  intros _. apply effects_ret.
Qed.

Lemma perform_effects (c : Call) (w : World) : rtc effect w (perform c w).
Proof.
  destruct c as [o| | | | |]; cbn [perform].
  - destruct o; cbn [run].
    + apply getOrCreateActiveGame_effects.
    + apply addBotEntry_effects.
    + apply buySpot_effects.
    + apply checkAndSpinIfFull_effects.
    + apply spinGame_effects.
  - apply updateUserBalance_effects.
  - apply tierTick_effects.
  - unfold claimDailyReward.
    apply effects_bind; [apply applyDailyReward_effects|].
    intros [|]; [|apply effects_ret].
    apply effects_bind; [apply getOrCreateUserPoints_effects|].
    intros p. apply effects_ret.
  - unfold getUserBalance.
    apply effects_bind; [apply getOrCreateUserPoints_effects|].
    intros p. apply effects_ret.
  - unfold getActiveGame.
    apply effects_bind; [apply getOrCreateActiveGame_effects|].
    intros gameId. apply effects_bind; [apply effects_gets|].
    intros [st|]; apply effects_ret.
Qed.

Lemma perform_all_effects (calls : list Call) :
  forall w, rtc effect w (perform_all calls w).
Proof.
  induction calls as [|c calls IH]; intros w; [apply rtc_refl|].
  cbn [perform_all fold_left].
  eapply rtc_trans; [apply perform_effects | apply IH].
Qed.

(** ** What every write preserves *)

Lemma update_game_ids (gameId : Z) (f : Game.t -> Game.t) (gs : list Game.t) :
  (forall g, Game.id (f g) = Game.id g) ->
  List.map Game.id (update_game gameId f gs) = List.map Game.id gs.
Proof.
  intros Hid. unfold update_game. rewrite List.map_map.
  apply List.map_ext. intros g. destruct (_ =? _); [apply Hid | reflexivity].
Qed.

Lemma update_game_In (gameId : Z) (f : Game.t -> Game.t) (gs : list Game.t)
    (g' : Game.t) :
  In g' (update_game gameId f gs) ->
  exists g, In g gs /\ (g' = g \/ g' = f g).
Proof.
  unfold update_game. intros H. apply in_map_iff in H as (g & <- & Hin).
  exists g. split; [exact Hin|]. destruct (_ =? _); tauto.
Qed.

Lemma update_game_Forall (P : Game.t -> Prop) (gameId : Z)
    (f : Game.t -> Game.t) (gs : list Game.t) :
  (forall g, P g -> P (f g)) ->
  Forall P gs -> Forall P (update_game gameId f gs).
Proof.
  intros Hf Hall. rewrite List.Forall_forall in *. intros g' Hin.
  apply update_game_In in Hin as (g & Hin & [->| ->]); auto.
Qed.

Lemma find_update_game_any (k gameId : Z) (f : Game.t -> Game.t)
    (gs : list Game.t) :
  (forall g, Game.id (f g) = Game.id g) ->
  List.find (fun g => Game.id g =? k) (update_game gameId f gs)
  = option_map (fun g => if Game.id g =? gameId then f g else g)
      (List.find (fun g => Game.id g =? k) gs).
Proof.
  intros Hid. induction gs as [|g gs IH]; [reflexivity|].
  cbn [update_game List.map List.find].
  assert (Hsame : Game.id (if Game.id g =? gameId then f g else g) = Game.id g).
  { destruct (_ =? _); [apply Hid | reflexivity]. }
  rewrite Hsame. destruct (Game.id g =? k); [reflexivity | exact IH].
Qed.

Lemma find_snoc_known (k : Z) (gs : list Game.t) (new g : Game.t) :
  List.find (fun g => Game.id g =? k) gs = Some g ->
  List.find (fun g => Game.id g =? k) (gs ++ [new]) = Some g.
Proof.
  induction gs as [|g0 gs IH]; [discriminate|].
  cbn [List.find app]. destruct (Game.id g0 =? k); [trivial | exact IH].
Qed.

Lemma effect_ids_fresh (w w' : World) :
  effect w w' ->
  ids_fresh w /\ 1 <= nextGameId w -> ids_fresh w' /\ 1 <= nextGameId w'.
Proof.
  unfold ids_fresh.
  intros [u Hu|u a cur Hu|u now pts Hu|tier Hnone|s g Hg Hfree Hcost Hbot
         |gameId ws wt wid p hc now|upd] [[Hnd Hlt] Hpos];
    try (split; [split|]; assumption).
  - cbn [insert_game games nextGameId]. split; [split|lia].
    + rewrite List.map_app. apply NoDup_app. split; [exact Hnd|].
      split; [|apply NoDup_singleton].
      intros x Hx Hx'. apply list_elem_of_In in Hx.
      apply in_map_iff in Hx as (g & <- & Hin).
      apply list_elem_of_In in Hx'. cbn in Hx'. destruct Hx' as [Heq|[]].
      specialize (Hlt g Hin). cbn in Heq. lia.
    + intros g Hin. apply in_app_iff in Hin as [Hin|[<-|[]]].
      * specialize (Hlt g Hin). lia.
      * cbn. lia.
  - cbn [with_games games nextGameId]. split; [split|exact Hpos].
    + rewrite !update_game_ids by reflexivity. exact Hnd.
    + intros g' Hin.
      apply update_game_In in Hin as (g1 & Hin & Hg1).
      apply update_game_In in Hin as (g0 & Hin & Hg0).
      specialize (Hlt g0 Hin).
      destruct Hg1 as [->| ->], Hg0 as [->| ->]; exact Hlt.
Qed.

Lemma effect_games_inv (w w' : World) :
  effect w w' -> games_inv (games w) -> games_inv (games w').
Proof.
  intros [u Hu|u a cur Hu|u now pts Hu|tier Hnone|s g Hg Hfree Hcost Hbot
         |gameId ws wt wid p hc now|upd] Hinv;
    try exact Hinv.
  - cbn [insert_game games]. now apply games_inv_create.
  - cbn [with_games games]. rewrite update_game_twice by reflexivity.
    apply games_inv_settle; [reflexivity | exact Hinv].
Qed.

Lemma configured_new (tier : Tier) (n : Z) :
  configured (Game.mk n (GameConfig.tier (GAME_CONFIGS tier))
                (GameConfig.slotCount (GAME_CONFIGS tier))
                (GameConfig.entryCost (GAME_CONFIGS tier))
                (GameConfig.edgePct (GAME_CONFIGS tier))
                None None None None None filling None).
Proof. destruct tier; repeat split. Qed.

Lemma effect_configured (w w' : World) :
  effect w w' -> Forall configured (games w) -> Forall configured (games w').
Proof.
  intros [u Hu|u a cur Hu|u now pts Hu|tier Hnone|s g Hg Hfree Hcost Hbot
         |gameId ws wt wid p hc now|upd] Hall;
    try exact Hall.
  - cbn [insert_game games]. apply Forall_app. split; [exact Hall|].
    constructor; [apply configured_new | constructor].
  - cbn [with_games games].
    apply update_game_Forall; [intros g Hg; exact Hg|].
    apply update_game_Forall; [intros g Hg; exact Hg | exact Hall].
Qed.

Lemma effect_result_recorded (w w' : World) :
  effect w w' ->
  Forall result_recorded (games w) -> Forall result_recorded (games w').
Proof.
  intros [u Hu|u a cur Hu|u now pts Hu|tier Hnone|s g Hg Hfree Hcost Hbot
         |gameId ws wt wid p hc now|upd] Hall;
    try exact Hall.
  - cbn [insert_game games]. apply Forall_app. split; [exact Hall|].
    constructor; [|constructor]. repeat split.
  - cbn [with_games games].
    apply update_game_Forall.
    { intros g _. unfold result_recorded. cbn. repeat split; eauto. }
    apply update_game_Forall; [|exact Hall].
    intros g _. exact I.
Qed.

Lemma slot_key_occupied (s : Slot.t) (w : World) :
  In (slot_key s) (List.map slot_key (gameSlots w))
  <-> slot_occupied (Slot.gameId s) (Slot.slotNumber s) w.
Proof.
  unfold slot_occupied, slot_key. rewrite in_map_iff. split.
  - intros (s' & Heq & Hin). injection Heq as Hg Hn. eauto.
  - intros (s' & Hin & Hg & Hn). exists s'. split; [congruence | exact Hin].
Qed.

Lemma effect_slots_unique (w w' : World) :
  effect w w' -> slots_unique w -> slots_unique w'.
Proof.
  unfold slots_unique.
  intros [u Hu|u a cur Hu|u now pts Hu|tier Hnone|s g Hg Hfree Hcost Hbot
         |gameId ws wt wid p hc now|upd] Hnd;
    try exact Hnd.
  cbn [insert_slot gameSlots]. rewrite List.map_app.
  apply NoDup_app. split; [exact Hnd|]. split; [|apply NoDup_singleton].
  intros k Hk Hk'. apply list_elem_of_In in Hk, Hk'.
  cbn in Hk'. destruct Hk' as [<-|[]].
  apply Hfree. now apply slot_key_occupied.
Qed.

Lemma effect_slots_attached (w w' : World) :
  effect w w' -> slots_attached w -> slots_attached w'.
Proof.
  unfold slots_attached.
  intros [u Hu|u a cur Hu|u now pts Hu|tier Hnone|s g Hg Hfree Hcost Hbot
         |gameId ws wt wid p hc now|upd] Hatt;
    try exact Hatt.
  - intros s Hin. destruct (Hatt s Hin) as (g & Hg & Hrest).
    exists g. split; [|exact Hrest].
    unfold game_of in *. cbn [insert_game games]. now apply find_snoc_known.
  - intros s' Hin. cbn [insert_slot gameSlots] in Hin.
    apply in_app_iff in Hin as [Hin|[<-|[]]].
    + exact (Hatt s' Hin).
    + exists g. tauto.
  - intros s Hin. destruct (Hatt s Hin) as (g & Hg & Hcost & Hbot).
    unfold game_of in *. cbn [with_games games].
    rewrite !find_update_game_any by reflexivity. rewrite Hg.
    cbn [option_map Game.id Game.set_status].
    eexists. split; [reflexivity|].
    destruct (Game.id g =? gameId) eqn:E; cbn; rewrite ?E; cbn; tauto.
Qed.

Lemma effect_ledger_balanced (w w' : World) :
  effect w w' -> ledger_balanced w -> ledger_balanced w'.
Proof.
  unfold ledger_balanced.
  intros [u Hu|u a cur Hu|u now pts Hu|tier Hnone|s g Hg Hfree Hcost Hbot
         |gameId ws wt wid p hc now|upd] Hbal;
    try exact Hbal; intros v q; cbn [with_userPoints userPoints].
  - rewrite lookup_insert. case_decide as Hv.
    + intros [= <-]. cbn. split; [congruence | lia].
    + apply Hbal.
  - rewrite lookup_alter. case_decide as Hv; [|apply Hbal].
    subst v. rewrite Hu. cbn. intros [= <-]. cbn.
    destruct (Hbal u cur Hu) as [Hid Heq]. split; [exact Hid|].
    destruct (0 <? a) eqn:E1, (a <? 0) eqn:E2; lia.
  - rewrite lookup_alter. case_decide as Hv; [|apply Hbal].
    subst v. rewrite Hu. cbn. intros [= <-]. cbn.
    destruct (Hbal u pts Hu) as [Hid Heq]. split; [exact Hid | lia].
Qed.

Lemma effect_well_formed (w w' : World) :
  effect w w' ->
  well_formed w /\ 1 <= nextGameId w -> well_formed w' /\ 1 <= nextGameId w'.
Proof.
  intros Heff [[Hids Hgames Hconf Hres Huniq Hatt Hled] Hpos].
  destruct (effect_ids_fresh _ _ Heff (conj Hids Hpos)) as [Hids' Hpos'].
  split; [|exact Hpos']. constructor.
  - exact Hids'.
  - now apply (effect_games_inv _ _ Heff).
  - now apply (effect_configured _ _ Heff).
  - now apply (effect_result_recorded _ _ Heff).
  - now apply (effect_slots_unique _ _ Heff).
  - now apply (effect_slots_attached _ _ Heff).
  - now apply (effect_ledger_balanced _ _ Heff).
Qed.

Lemma initial_well_formed : well_formed initial /\ 1 <= nextGameId initial.
Proof.
  split; [|cbn; lia]. constructor.
  - split; [constructor | intros g []].
  - split; [constructor | intros t; cbn; lia].
  - constructor.
  - constructor.
  - constructor.
  - intros s [].
  - intros u p H. cbn in H. rewrite lookup_empty in H. discriminate H.
Qed.

Lemma rtc_effect_well_formed (w w' : World) :
  rtc effect w w' ->
  well_formed w /\ 1 <= nextGameId w -> well_formed w' /\ 1 <= nextGameId w'.
Proof.
  induction 1 as [|x y z Hxy _ IH]; [trivial|].
  intros Hx. apply IH. now apply (effect_well_formed x y).
Qed.

(** Every world the server can reach from the empty database. *)
Lemma reachable_well_formed (calls : list Call) :
  well_formed (perform_all calls initial).
Proof.
  apply (rtc_effect_well_formed initial).
  - apply perform_all_effects.
  - apply initial_well_formed.
Qed.

(** ** Invariants of the reachable worlds *)

(** X1. In every reachable world each ledger record is stored under its
    own user id, and its balance equals totalEarned minus totalWagered. *)
Theorem ledger_always_balanced (calls : list Call) :
  ledger_balanced (perform_all calls initial).
Proof. apply reachable_well_formed. Qed.

(** X2. In every reachable world no two slots share a game and a slot
    number. *)
Theorem slot_numbers_always_unique (calls : list Call) :
  slots_unique (perform_all calls initial).
Proof. apply reachable_well_formed. Qed.

(** X3. In every reachable world each game still carries the slot count,
    entry cost and edge of its tier's configuration. *)
Theorem games_always_configured (calls : list Call) :
  Forall configured (games (perform_all calls initial)).
Proof. apply reachable_well_formed. Qed.

(** X4. Between calls a stored game is either filling, with every result
    column unset, or completed, with every result column set: the
    statuses full and spinning are never left behind. *)
Theorem games_filling_or_settled (calls : list Call) :
  Forall (fun g => (Game.status g = filling \/ Game.status g = completed)
                   /\ result_recorded g)
         (games (perform_all calls initial)).
Proof.
  destruct (reachable_well_formed calls) as [_ [Hst _] _ Hres _ _ _].
  rewrite List.Forall_forall in *. intros g Hin. split; auto.
Qed.

(** X5. In every reachable world each slot belongs to a stored game and
    was paid at that game's entry cost, and every bot's slot number lies
    in 1 .. slotCount. *)
Theorem slots_always_attached (calls : list Call) :
  slots_attached (perform_all calls initial).
Proof. apply reachable_well_formed. Qed.

(** X6. Also with scheduler ticks, ledger calls and router queries in
    the sequence, each tier has at most one game that is filling or
    full. *)
Theorem one_active_game_with_ticks (calls : list Call) (tier : Tier) :
  (length (List.filter (active_in tier) (games (perform_all calls initial))) <= 1)%nat.
Proof.
  destruct (reachable_well_formed calls) as [_ [_ Hone] _ _ _ _ _]. apply Hone.
Qed.

(** ** The history is append-only *)

Lemma history_kept_refl (w : World) : history_kept w w.
Proof.
  split; [exists []; now rewrite app_nil_r|].
  intros gameId g Hg. exists g. repeat split; trivial.
Qed.

Lemma history_kept_trans (w1 w2 w3 : World) :
  history_kept w1 w2 -> history_kept w2 w3 -> history_kept w1 w3.
Proof.
  intros [[a1 Ha1] Hg1] [[a2 Ha2] Hg2]. split.
  - exists (a1 ++ a2). now rewrite Ha2, Ha1, app_assoc.
  - intros gameId g Hg.
    destruct (Hg1 _ _ Hg) as (g' & Hg' & Hs1).
    destruct (Hg2 _ _ Hg') as (g'' & Hg'' & Hs2).
    exists g''. split; [exact Hg''|].
    unfold same_game in *. intuition congruence.
Qed.

Lemma history_kept_same (w w' : World) :
  gameSlots w' = gameSlots w -> games w' = games w -> history_kept w w'.
Proof.
  intros Hs Hg. split; [exists []; now rewrite app_nil_r|].
  intros gameId g Hgame. exists g. unfold game_of in *. rewrite Hg.
  repeat split; trivial.
Qed.

Lemma effect_history_kept (w w' : World) : effect w w' -> history_kept w w'.
Proof.
  intros [u Hu|u a cur Hu|u now pts Hu|tier Hnone|s g Hg Hfree Hcost Hbot
         |gameId ws wt wid p hc now|upd];
    try (apply history_kept_same; reflexivity).
  - split; [exists []; cbn; now rewrite app_nil_r|].
    intros k g Hg. exists g. split; [|repeat split; trivial].
    unfold game_of in *. cbn [insert_game games]. now apply find_snoc_known.
  - split; [exists [s]; reflexivity|].
    intros k g0 Hg0. exists g0. repeat split; trivial.
  - split; [exists []; cbn; now rewrite app_nil_r|].
    intros k g Hg. unfold game_of in *. cbn [with_games games].
    rewrite !find_update_game_any by reflexivity. rewrite Hg.
    cbn [option_map Game.id Game.set_status].
    eexists. split; [reflexivity|].
    destruct (Game.id g =? gameId) eqn:E; cbn; rewrite ?E; cbn;
      repeat split; trivial.
Qed.

Lemma rtc_effect_history_kept (w w' : World) :
  rtc effect w w' -> history_kept w w'.
Proof.
  induction 1 as [|x y z Hxy _ IH]; [apply history_kept_refl|].
  eapply history_kept_trans; [apply effect_history_kept, Hxy | exact IH].
Qed.

(** X7. No call deletes or rewrites a slot or drops a game: after any
    call the earlier slots are a prefix of the slot table, and every game
    that could be read can still be read with the same id, tier and
    configuration; a completed game is still completed. *)
Theorem calls_keep_history (c : Call) (w : World) :
  history_kept w (perform c w).
Proof. apply rtc_effect_history_kept, perform_effects. Qed.

(** ** From the buyer's id to the winner's credit *)

Lemma digit_value_pretty (d : N) :
  (d < 10)%N -> digit_value 10 (pretty_N_char d) = Some (Z.of_N d).
Proof.
  intros H.
  assert (d = 0 \/ d = 1 \/ d = 2 \/ d = 3 \/ d = 4 \/ d = 5 \/ d = 6
          \/ d = 7 \/ d = 8 \/ d = 9)%N as Hd by lia.
  repeat (destruct Hd as [->|Hd]; [reflexivity|]). subst. reflexivity.
Qed.

Lemma parse_digits_pretty (x : N) :
  (0 < x)%N ->
  forall s, exists d r,
    (1 <= d < 10)%N
    /\ pretty_N_go x s = String (pretty_N_char d) r
    /\ parse_digits 10 (String (pretty_N_char d) r) None
       = parse_digits 10 s (Some (Z.of_N x)).
Proof.
  induction (N.lt_wf_0 x) as [x _ IH]. intros Hx s.
  rewrite pretty_N_go_step by exact Hx.
  destruct (N.eq_dec (x / 10)%N 0%N) as [Hz|Hnz].
  - rewrite Hz, pretty_N_go_0.
    assert (Hsmall : (x < 10)%N) by (apply N.div_small_iff in Hz; lia).
    rewrite N.mod_small by exact Hsmall.
    exists x, s. split; [lia|]. split; [reflexivity|].
    cbn [parse_digits]. rewrite digit_value_pretty by exact Hsmall.
    cbn [default]. f_equal.
  - destruct (IH (x / 10)%N) with (s := String (pretty_N_char (x mod 10)%N) s)
      as (d & r & Hd & Hgo & Hparse).
    + apply N.div_lt; lia.
    + now apply N.neq_0_lt_0.
    + exists d, r. split; [exact Hd|]. split; [exact Hgo|].
      rewrite Hparse. cbn [parse_digits].
      rewrite digit_value_pretty by (apply N.mod_lt; lia).
      cbn [default]. do 2 f_equal.
      pose proof (N.div_mod x 10 ltac:(lia)) as Hdm. unfold id. lia.
Qed.

Lemma parseInt_leading_digit (d : N) (r : string) :
  (1 <= d < 10)%N ->
  parseInt (String (pretty_N_char d) r)
  = parse_digits 10 (String (pretty_N_char d) r) None
  /\ parseInt (String "-" (String (pretty_N_char d) r))
     = option_map Z.opp (parse_digits 10 (String (pretty_N_char d) r) None).
Proof.
  intros H.
  assert (d = 1 \/ d = 2 \/ d = 3 \/ d = 4 \/ d = 5 \/ d = 6
          \/ d = 7 \/ d = 8 \/ d = 9)%N as Hd by lia.
  assert (Hcase : forall o : option Z,
            match o with Some n => Some n | None => None end = o
            /\ match o with Some n => Some (- n) | None => None end
               = option_map Z.opp o).
  { intros [n|]; split; reflexivity. }
  repeat (destruct Hd as [->|Hd]; [unfold parseInt; cbn; apply Hcase|]).
  subst. unfold parseInt; cbn; apply Hcase.
Qed.

Lemma parseInt_toString (n : Z) : parseInt (toString n) = Some n.
Proof.
  unfold toString, pretty, pretty_Z.
  destruct n as [|p|p]; [reflexivity| |].
  - unfold pretty, pretty_positive, pretty, pretty_N.
    rewrite decide_False by discriminate.
    destruct (parse_digits_pretty (N.pos p) eq_refl "") as (d & r & Hd & -> & Hp).
    rewrite (proj1 (parseInt_leading_digit d r Hd)), Hp. reflexivity.
  - unfold pretty, pretty_positive, pretty, pretty_N.
    rewrite decide_False by discriminate.
    destruct (parse_digits_pretty (N.pos p) eq_refl "") as (d & r & Hd & Hgo & Hp).
    rewrite Hgo. change (parseInt (String "-" (String (pretty_N_char d) r)) = Some (Z.neg p)).
    rewrite (proj2 (parseInt_leading_digit d r Hd)), Hp. reflexivity.
Qed.

Lemma players_positive (s : Slot.t) (ss : list Slot.t) :
  In s ss -> Slot.ownerType s = player ->
  0 < Z.of_nat (length (List.filter is_player ss)).
Proof.
  intros Hin Hp.
  assert (Hf : In s (List.filter is_player ss)).
  { apply filter_In. split; [exact Hin|]. unfold is_player.
    now apply bool_decide_eq_true_2. }
  destruct (List.filter is_player ss); [destruct Hf | cbn [length]; lia].
Qed.

(** What [updateUserBalance] does to the ledger depends on the ledger
    alone. *)
Lemma updateUserBalance_ledger_only (userId amount : Z) (w1 w2 : World) :
  userPoints w1 = userPoints w2 ->
  userPoints (snd (updateUserBalance userId amount w1))
  = userPoints (snd (updateUserBalance userId amount w2)).
Proof.
  destruct w1 as [g1 n1 s1 u1 e1], w2 as [g2 n2 s2 u2 e2].
  cbn [userPoints]. intros ->.
  unfold updateUserBalance, getOrCreateUserPoints, bind, gets, modify, ret.
  cbn [userPoints]. destruct (u2 !! userId) as [p|]; cbn; [reflexivity|].
  rewrite !lookup_insert_eq. reflexivity.
Qed.

Lemma spinGame_credits (rng : Rng) (now gameId : Z) (w : World) (g : Game.t)
    (s : Slot.t) (u : Z) :
  game_of gameId w = Some g ->
  winnerSlot_of rng gameId g w = Some s ->
  Slot.ownerType s = player ->
  parseInt (Slot.ownerId s) = Some u ->
  userPoints (snd (spinGame rng now gameId w))
  = userPoints
      (snd (updateUserBalance u
              (rounded_payout (Z.of_nat (length (slots_of gameId w)))
                 (Z.of_nat (length (List.filter is_player (slots_of gameId w))))
                 (Game.slotCount g) (Game.entryCost g) (Game.edgePct g))
              w)).
Proof.
  intros Hg Hfind Hplayer Hparse.
  assert (Hpos : 0 < Z.of_nat (length (List.filter is_player (slots_of gameId w)))).
  { unfold winnerSlot_of in Hfind. apply find_some in Hfind as [Hin _].
    exact (players_positive s _ Hin Hplayer). }
  apply Z.ltb_lt in Hpos.
  unfold spinGame, bind at 1, gets at 1. rewrite getGameState_eq, Hg.
  cbn [GameState.game GameState.slots].
  unfold winnerSlot_of in Hfind. rewrite Hfind. cbv beta iota zeta.
  rewrite Hplayer. cbn [winner_of_owner].
  rewrite (bool_decide_eq_true_2 (player_wins = player_wins)) by reflexivity.
  fold (is_player). change (List.filter (fun s => bool_decide (Slot.ownerType s = player)))
    with (List.filter is_player).
  rewrite Hpos. cbn [andb]. rewrite Hparse.
  unfold bind at 1, modify at 1. unfold bind at 1, modify at 1.
  unfold bind at 1. unfold bind at 1.
  match goal with
  | |- context [updateUserBalance u ?p ?w1] =>
      pose proof (updateUserBalance_ledger_only u p w1 w eq_refl) as Hsame;
      destruct (updateUserBalance_frame u p w1) as (b & w2 & Hupd & _)
  end.
  unfold rounded_payout.
  rewrite Hupd in *. cbn [snd] in Hsame. rewrite <- Hsame.
  unfold ret at 1. unfold bind, gets, modify, ret.
  destruct (getGameState gameId w2); reflexivity.
Qed.

(** X8. When the slot found on the drawn number is the one [buySpot]
    stored for user [u] (a player's slot whose ownerId is [u.toString()]),
    the settlement records that player as winner with the rounded payout
    and leaves the ledger as [updateUserBalance(u, payout)] does. *)
Theorem spinGame_pays_the_buyer
    (rng : Rng) (now gameId : Z) (w : World) (g : Game.t) (s : Slot.t) (u : Z) :
  game_of gameId w = Some g ->
  winnerSlot_of rng gameId g w = Some s ->
  Slot.ownerType s = player ->
  Slot.ownerId s = toString u ->
  let p := rounded_payout (Z.of_nat (length (slots_of gameId w)))
             (Z.of_nat (length (List.filter is_player (slots_of gameId w))))
             (Game.slotCount g) (Game.entryCost g) (Game.edgePct g) in
  exists w' g',
    spinGame rng now gameId w = (Returned true, w')
    /\ game_of gameId w' = Some g'
    /\ Game.winnerType g' = Some player_wins
    /\ Game.winnerId g' = Some (toString u)
    /\ Game.payout g' = Some p
    /\ userPoints w' = userPoints (snd (updateUserBalance u p w)).
Proof.
  intros Hg Hfind Hplayer Hid p.
  assert (Hparse : parseInt (Slot.ownerId s) = Some u).
  { rewrite Hid. apply parseInt_toString. }
  pose proof (spinGame_credits rng now gameId w g s u Hg Hfind Hplayer Hparse)
    as Hledger.
  destruct (spinGame_persisted rng now gameId w g Hg)
    as (wt & wid & p' & w' & Hwin & Hrun & Hread & _ & _).
  rewrite Hfind, Hplayer in Hwin. destruct Hwin as (Hwt & Hwid & Hp').
  cbn in Hwt. subst wt wid.
  assert (Hpos : 0 < Z.of_nat (length (List.filter is_player (slots_of gameId w)))).
  { unfold winnerSlot_of in Hfind. apply find_some in Hfind as [Hin _].
    exact (players_positive s _ Hin Hplayer). }
  apply Z.ltb_lt in Hpos. rewrite Hpos in Hp'.
  rewrite bool_decide_eq_true_2 in Hp', Hread by reflexivity.
  cbn [andb] in Hp'. subst p'.
  rewrite Hrun in Hledger. cbn [snd] in Hledger.
  eexists w', _. split; [exact Hrun|]. split; [exact Hread|].
  cbn [Game.winnerType Game.winnerId Game.payout]. rewrite Hid.
  repeat split; trivial.
Qed.

Lemma spinGame_pays_the_buyer_witness :
  let g := Game.mk 1 high 6 25 (-20) None None None None None filling None in
  let w := mkWorld [g] 2
             [Slot.mk 1 1 player "7" 25; Slot.mk 1 2 bot "T" 25;
              Slot.mk 1 3 bot "B" 25; Slot.mk 1 4 bot "J" 25;
              Slot.mk 1 5 bot "P" 25; Slot.mk 1 6 bot "K" 25]
             {[ 7 := UserPoints.mk 7 29975 30000 25 None ]} [] in
  let p := rounded_payout 6 1 6 25 (-20) in
  exists w' g',
    spinGame (rng_of 0) 1000 1 w = (Returned true, w')
    /\ game_of 1 w' = Some g'
    /\ Game.winnerType g' = Some player_wins
    /\ Game.winnerId g' = Some (toString 7)
    /\ Game.payout g' = Some p
    /\ userPoints w' = userPoints (snd (updateUserBalance 7 p w)).
Proof.
  intros g w p.
  apply (spinGame_pays_the_buyer (rng_of 0) 1000 1 w g
           (Slot.mk 1 1 player "7" 25) 7);
    reflexivity.
Defined.

(** X9. [updateUserBalance(u, amount)] returns the new balance and
    stores it; a positive amount is added to totalEarned, a negative one
    adds its absolute value to totalWagered, lastDailyReward and every
    other user's record are untouched. *)
Theorem updateUserBalance_spec (userId amount : Z) (w : World) :
  exists current w0 w',
    getOrCreateUserPoints userId w = (Returned current, w0)
    /\ updateUserBalance userId amount w
       = (Returned (UserPoints.balance current + amount), w')
    /\ userPoints w' !! userId
       = Some (UserPoints.mk (UserPoints.userId current)
                 (UserPoints.balance current + amount)
                 (UserPoints.totalEarned current + Z.max amount 0)
                 (UserPoints.totalWagered current + Z.max (- amount) 0)
                 (UserPoints.lastDailyReward current))
    /\ (forall v, v <> userId -> userPoints w' !! v = userPoints w !! v)
    /\ games w' = games w /\ gameSlots w' = gameSlots w.
Proof.
  destruct (getOrCreateUserPoints_returns userId w)
    as (cur & w0 & Hget & Hcur & Hg & _ & Hs & _ & Hsame).
  exists cur, w0. eexists. split; [exact Hget|].
  unfold updateUserBalance, bind, modify, ret. rewrite Hget.
  split; [reflexivity|]. cbn [with_userPoints userPoints games gameSlots].
  split; [|split; [|split; assumption]].
  - rewrite lookup_alter_eq, Hcur. cbn. do 2 f_equal.
    + destruct (0 <? amount) eqn:E; lia.
    + destruct (amount <? 0) eqn:E; lia.
  - intros v Hv. rewrite lookup_alter_ne by congruence.
    destruct (userPoints w !! userId) as [q|] eqn:Eq.
    + now rewrite (Hsame q eq_refl).
    + rewrite (getOrCreateUserPoints_fresh _ _ Eq) in Hget.
      injection Hget as _ <-. cbn. rewrite lookup_insert_ne by congruence.
      reflexivity.
Qed.

(** ** More on settlement *)

Lemma winnerSlot_unoccupied (rng : Rng) (gameId : Z) (g : Game.t) (w : World) :
  ~ slot_occupied gameId (random_index rng (Game.slotCount g) + 1) w ->
  winnerSlot_of rng gameId g w = None.
Proof.
  intros Hfree. unfold winnerSlot_of.
  destruct (List.find _ _) as [s|] eqn:E; [|reflexivity].
  exfalso. apply Hfree. apply find_some in E as [Hin Hn].
  apply slot_occupied_slots_of. exists s. split; [exact Hin | lia].
Qed.

(** X10. When nobody holds the drawn number, the house wins: the
    settlement records winnerType house, winnerId "house", payout 0 and
    the commission, and no ledger record changes. *)
Theorem spinGame_house_win (rng : Rng) (now gameId : Z) (w : World) (g : Game.t) :
  game_of gameId w = Some g ->
  ~ slot_occupied gameId (random_index rng (Game.slotCount g) + 1) w ->
  exists w' g',
    spinGame rng now gameId w = (Returned true, w')
    /\ game_of gameId w' = Some g'
    /\ Game.status g' = completed
    /\ Game.winningSlot g' = Some (random_index rng (Game.slotCount g) + 1)
    /\ Game.winnerType g' = Some house_wins
    /\ Game.winnerId g' = Some "house"
    /\ Game.payout g' = Some 0
    /\ Game.houseCommission g'
       = Some (commission (Z.of_nat (length (slots_of gameId w))) (Game.entryCost g))
    /\ userPoints w' = userPoints w.
Proof.
  intros Hg Hfree.
  destruct (spinGame_persisted rng now gameId w g Hg)
    as (wt & wid & p & w' & Hwin & Hrun & Hread & _ & Hledger).
  rewrite (winnerSlot_unoccupied _ _ _ _ Hfree) in Hwin.
  destruct Hwin as (-> & -> & ->).
  rewrite bool_decide_eq_false_2 in Hread by discriminate.
  eexists w', _. split; [exact Hrun|]. split; [exact Hread|].
  cbn. repeat split; trivial. apply Hledger. left. discriminate.
Qed.

Lemma spinGame_house_win_witness :
  let g := Game.mk 1 high 6 25 (-20) None None None None None filling None in
  let w := mkWorld [g] 2 [Slot.mk 1 1 player "7" 25; Slot.mk 1 2 bot "T" 25]
             {[ 7 := UserPoints.mk 7 29975 30000 25 None ]} [] in
  exists w' g',
    spinGame (rng_of 4) 1000 1 w = (Returned true, w')
    /\ game_of 1 w' = Some g'
    /\ Game.status g' = completed
    /\ Game.winningSlot g' = Some 5
    /\ Game.winnerType g' = Some house_wins
    /\ Game.winnerId g' = Some "house"
    /\ Game.payout g' = Some 0
    /\ Game.houseCommission g' = Some (commission 2 25)
    /\ userPoints w' = userPoints w.
Proof.
  intros g w.
  apply (spinGame_house_win (rng_of 4) 1000 1 w g); [reflexivity|].
  intros (s & Hin & _ & Hn). cbn in Hin, Hn.
  destruct Hin as [<-|[<-|[]]]; discriminate Hn.
Defined.

(** X11. On an id that no stored game has, [getGameState] is null and
    [addBotEntry], [checkAndSpinIfFull] and [spinGame] return false
    without writing anything. *)
Theorem unknown_game_is_a_noop (rng : Rng) (now gameId : Z) (w : World) :
  ~ game_known gameId w ->
  getGameState gameId w = None
  /\ addBotEntry rng gameId w = (Returned false, w)
  /\ checkAndSpinIfFull rng now gameId w = (Returned false, w)
  /\ spinGame rng now gameId w = (Returned false, w).
Proof.
  intros H. apply game_of_None_unknown in H.
  assert (Hstate : getGameState gameId w = None)
    by now rewrite getGameState_eq, H.
  unfold addBotEntry, checkAndSpinIfFull, spinGame, bind, gets.
  rewrite Hstate. repeat split.
Qed.

Lemma unknown_game_is_a_noop_witness :
  getGameState 5 initial = None
  /\ addBotEntry (rng_of 0) 5 initial = (Returned false, initial)
  /\ checkAndSpinIfFull (rng_of 0) 1000 5 initial = (Returned false, initial)
  /\ spinGame (rng_of 0) 1000 5 initial = (Returned false, initial).
Proof.
  apply (unknown_game_is_a_noop (rng_of 0) 1000 5 initial).
  intros (g & Hin & _). destruct Hin.
Defined.

(** X12. A settlement touches its own game only: it returns true, leaves
    the game completed at [now] with its configuration intact, a winning
    number in 1 .. slotCount (for a positive slotCount), and a payout that
    is a multiple of 5 and is 0 unless a player won; the slots and every
    other game are as before. *)
Theorem spinGame_settles_only_its_game
    (rng : Rng) (now gameId : Z) (w : World) (g : Game.t) :
  game_of gameId w = Some g ->
  exists w' g' n p,
    spinGame rng now gameId w = (Returned true, w')
    /\ game_of gameId w' = Some g'
    /\ same_game g g'
    /\ Game.status g' = completed
    /\ Game.completedAt g' = Some now
    /\ Game.winningSlot g' = Some n
    /\ (0 < Game.slotCount g -> 1 <= n <= Game.slotCount g)
    /\ Game.payout g' = Some p
    /\ (5 | p)
    /\ (Game.winnerType g' <> Some player_wins -> p = 0)
    /\ gameSlots w' = gameSlots w
    /\ (forall k, k <> gameId -> game_of k w' = game_of k w).
Proof.
  intros Hg.
  destruct (spinGame_run rng now gameId w g Hg)
    as (wt & wid & p & w' & Hwin & Hrun & Hgames & Hslots & _ & _).
  exists w'. eexists _, (random_index rng (Game.slotCount g) + 1),
    (if bool_decide (wt = player_wins) then p else 0).
  split; [exact Hrun|]. split.
  { unfold game_of in *. rewrite Hgames.
    rewrite !find_update_game by reflexivity. rewrite Hg. reflexivity. }
  cbn [Game.status Game.completedAt Game.winningSlot Game.payout
       Game.winnerType Game.set_result Game.set_status].
  split; [repeat split|]. do 3 (split; [reflexivity|]).
  split.
  { intros Hpos. pose proof (random_index_range rng _ Hpos). lia. }
  split; [reflexivity|]. split.
  { destruct (bool_decide (wt = player_wins)); [|apply Z.divide_0_r].
    destruct (winnerSlot_of rng gameId g w).
    - destruct Hwin as (_ & _ & ->).
      destruct (_ && _); [|apply Z.divide_0_r].
      unfold rounded_payout. apply Z.divide_factor_r.
    - destruct Hwin as (_ & _ & ->). apply Z.divide_0_r. }
  split.
  { intros Hne. rewrite bool_decide_eq_false_2; [reflexivity|]. congruence. }
  split; [exact Hslots|].
  intros k Hk. unfold game_of. rewrite Hgames.
  rewrite !find_update_game_any by reflexivity.
  destruct (List.find _ (games w)) as [g0|] eqn:E; [|reflexivity].
  apply find_some in E as [_ Hid]. cbn [option_map Game.id Game.set_status].
  assert (Hne : (Game.id g0 =? gameId) = false) by lia.
  rewrite Hne. cbn. now rewrite Hne.
Qed.

Lemma spinGame_settles_only_its_game_witness :
  let g := Game.mk 1 high 6 25 (-20) None None None None None filling None in
  let w := mkWorld [g; Game.mk 2 low 12 5 (-2) None None None None None filling None]
             3 [Slot.mk 1 1 player "7" 25; Slot.mk 2 1 bot "T" 5] ∅ [] in
  exists w' g' n p,
    spinGame (rng_of 0) 3000 1 w = (Returned true, w')
    /\ game_of 1 w' = Some g'
    /\ same_game g g'
    /\ Game.status g' = completed
    /\ Game.completedAt g' = Some 3000
    /\ Game.winningSlot g' = Some n
    /\ (0 < 6 -> 1 <= n <= 6)
    /\ Game.payout g' = Some p
    /\ (5 | p)
    /\ (Game.winnerType g' <> Some player_wins -> p = 0)
    /\ gameSlots w' = gameSlots w
    /\ (forall k, k <> 1 -> game_of k w' = game_of k w).
Proof.
  intros g w.
  apply (spinGame_settles_only_its_game (rng_of 0) 3000 1 w g). reflexivity.
Defined.

(** ** The active game of a tier *)

Lemma find_by_id_unique (gs : list Game.t) (g : Game.t) :
  NoDup (List.map Game.id gs) -> In g gs ->
  List.find (fun g0 => Game.id g0 =? Game.id g) gs = Some g.
Proof.
  induction gs as [|g0 gs IH]; intros Hnd Hin; [destruct Hin|].
  cbn [List.map] in Hnd. apply NoDup_cons in Hnd as [Hfresh Hnd].
  cbn [List.find]. destruct Hin as [->|Hin].
  - now rewrite Z.eqb_refl.
  - destruct (Game.id g0 =? Game.id g) eqn:E; [|now apply IH].
    exfalso. apply Hfresh. apply list_elem_of_In, in_map_iff.
    exists g. split; [lia | exact Hin].
Qed.

Lemma find_snoc_none {A} (f : A -> bool) (l : list A) (x : A) :
  List.find f l = None -> List.find f (l ++ [x]) = (if f x then Some x else None).
Proof.
  induction l as [|y l IH]; [reflexivity|].
  cbn [List.find app]. destruct (f y); [discriminate | exact IH].
Qed.

Lemma new_game_active (tier : Tier) (n : Z) :
  active_in tier
    (Game.mk n (GameConfig.tier (GAME_CONFIGS tier))
       (GameConfig.slotCount (GAME_CONFIGS tier))
       (GameConfig.entryCost (GAME_CONFIGS tier))
       (GameConfig.edgePct (GAME_CONFIGS tier))
       None None None None None filling None) = true.
Proof. destruct tier; reflexivity. Qed.

(** What [getOrCreateActiveGame] returns when the ids are distinct and
    below the counter. *)
Lemma getOrCreateActiveGame_returns (tier : Tier) (w : World) :
  ids_fresh w ->
  exists gameId g w',
    getOrCreateActiveGame tier w = (Returned gameId, w')
    /\ game_of gameId w' = Some g
    /\ active_in tier g = true
    /\ List.find (active_in tier) (games w') = Some g
    /\ gameSlots w' = gameSlots w
    /\ userPoints w' = userPoints w
    /\ (List.find (active_in tier) (games w) = Some g -> w' = w).
Proof.
  intros [Hnd Hlt].
  unfold getOrCreateActiveGame, bind, gets.
  change (fun g => bool_decide (Game.tier g = tier) && is_active (Game.status g))
    with (active_in tier).
  destruct (List.find (active_in tier) (games w)) as [g|] eqn:E.
  - exists (Game.id g), g, w. split; [reflexivity|].
    pose proof (find_some _ _ E) as [Hin Hact].
    split; [now apply find_by_id_unique|]. tauto.
  - unfold createGame, bind, gets, modify, ret. cbn [fst snd].
    eexists _, _, _. split; [reflexivity|].
    cbn [insert_game games gameSlots userPoints]. unfold game_of.
    cbn [insert_game games].
    split.
    { rewrite find_snoc_none; [cbn; now rewrite Z.eqb_refl|].
      destruct (List.find (fun g1 => Game.id g1 =? nextGameId w) (games w))
        as [g0|] eqn:E0; [|reflexivity].
      apply find_some in E0 as [Hin Hid]. specialize (Hlt g0 Hin). lia. }
    split; [apply new_game_active|].
    split; [rewrite (find_snoc_none _ _ _ E); now rewrite new_game_active|].
    repeat split. intros Hfalse. discriminate Hfalse.
Qed.

(** X13. With distinct game ids, [getOrCreateActiveGame] returns the id
    of a stored game of the requested tier that is filling or full,
    touches neither slots nor ledger, and is idempotent: asked again, it
    returns the same id and writes nothing. *)
Theorem getOrCreateActiveGame_idempotent (tier : Tier) (w : World) :
  ids_fresh w ->
  exists gameId g w',
    getOrCreateActiveGame tier w = (Returned gameId, w')
    /\ game_of gameId w' = Some g
    /\ Game.tier g = tier
    /\ is_active (Game.status g) = true
    /\ gameSlots w' = gameSlots w
    /\ userPoints w' = userPoints w
    /\ getOrCreateActiveGame tier w' = (Returned gameId, w').
Proof.
  intros Hids.
  destruct (getOrCreateActiveGame_returns tier w Hids)
    as (gameId & g & w' & Hrun & Hg & Hact & Hfind & Hs & Hu & _).
  exists gameId, g, w'. split; [exact Hrun|]. split; [exact Hg|].
  unfold active_in in Hact. apply andb_true_iff in Hact as [Ht Ha].
  apply bool_decide_eq_true in Ht.
  split; [exact Ht|]. split; [exact Ha|]. split; [exact Hs|]. split; [exact Hu|].
  unfold getOrCreateActiveGame, bind, gets.
  change (fun g => bool_decide (Game.tier g = tier) && is_active (Game.status g))
    with (active_in tier).
  rewrite Hfind. unfold ret.
  apply game_of_Some_known in Hg as [_ Hid]. now rewrite Hid.
Qed.

Lemma getOrCreateActiveGame_idempotent_witness :
  exists gameId g w',
    getOrCreateActiveGame medium initial = (Returned gameId, w')
    /\ game_of gameId w' = Some g
    /\ Game.tier g = medium
    /\ is_active (Game.status g) = true
    /\ gameSlots w' = gameSlots initial
    /\ userPoints w' = userPoints initial
    /\ getOrCreateActiveGame medium w' = (Returned gameId, w').
Proof.
  apply (getOrCreateActiveGame_idempotent medium initial).
  split; [constructor | intros g []].
Defined.

Lemma reachable_counter (calls : list Call) :
  well_formed (perform_all calls initial)
  /\ 1 <= nextGameId (perform_all calls initial).
Proof.
  apply (rtc_effect_well_formed initial).
  - apply perform_all_effects.
  - apply initial_well_formed.
Qed.

(** X14. In every reachable world [getActiveGame] answers with a view,
    never with the error: the game shown is of the requested tier, is
    filling, carries the tier's configuration and no result, and its
    filled and empty counts add up to the slot count. *)
Theorem getActiveGame_shows_a_filling_game (calls : list Call) (tier : Tier) :
  exists v w',
    getActiveGame tier (perform_all calls initial) = (Returned (ActiveGame.ok v), w')
    /\ ActiveGame.tier v = tier
    /\ ActiveGame.status v = filling
    /\ ActiveGame.res v = None
    /\ ActiveGame.slotCount v = GameConfig.slotCount (GAME_CONFIGS tier)
    /\ ActiveGame.entryCost v = GameConfig.entryCost (GAME_CONFIGS tier)
    /\ ActiveGame.edgePct v = GameConfig.edgePct (GAME_CONFIGS tier)
    /\ ActiveGame.filledCount v = Z.of_nat (length (ActiveGame.slots v))
    /\ ActiveGame.filledCount v + ActiveGame.emptyCount v = ActiveGame.slotCount v
    /\ gameSlots w' = gameSlots (perform_all calls initial).
Proof.
  set (w := perform_all calls initial).
  pose proof (reachable_counter calls) as Hwf. fold w in Hwf.
  destruct (getOrCreateActiveGame_returns tier w (wf_ids _ (proj1 Hwf)))
    as (gameId & g & w' & Hrun & Hg & Hact & _ & Hs & _ & _).
  pose proof (getOrCreateActiveGame_effects tier w) as Heff.
  rewrite Hrun in Heff. cbn [snd] in Heff.
  destruct (rtc_effect_well_formed _ _ Heff Hwf) as [Hwf' _].
  pose proof (game_of_Some_known _ _ _ Hg) as [Hin _].
  destruct Hwf' as [_ [Hst _] Hconf Hres _ _ _].
  rewrite List.Forall_forall in Hst, Hconf, Hres.
  specialize (Hst g Hin). specialize (Hconf g Hin). specialize (Hres g Hin).
  unfold active_in in Hact. apply andb_true_iff in Hact as [Ht Ha].
  apply bool_decide_eq_true in Ht.
  assert (Hfill : Game.status g = filling).
  { destruct Hst as [Hf|Hc]; [exact Hf|]. rewrite Hc in Ha. discriminate Ha. }
  unfold result_recorded in Hres. rewrite Hfill in Hres.
  destruct Hres as (Hws & _).
  destruct Hconf as (Hc1 & Hc2 & Hc3). rewrite Ht in Hc1, Hc2, Hc3.
  unfold getActiveGame, bind, gets, ret. rewrite Hrun.
  rewrite getGameState_eq, Hg.
  cbn [GameState.game GameState.slots GameState.filledCount GameState.emptyCount].
  rewrite Hws. cbn [truthy].
  eexists _, w'. split; [reflexivity|].
  cbn [ActiveGame.tier ActiveGame.status ActiveGame.res ActiveGame.slotCount
       ActiveGame.entryCost ActiveGame.edgePct ActiveGame.filledCount
       ActiveGame.emptyCount ActiveGame.slots].
  rewrite length_map.
  repeat split; try assumption; try reflexivity. lia.
Qed.

(** ** Buying a spot *)

Lemma spinGame_returns (rng : Rng) (now gameId : Z) (w : World) :
  exists b w', spinGame rng now gameId w = (Returned b, w').
Proof.
  destruct (game_of gameId w) as [g|] eqn:Hg.
  - destruct (spinGame_run rng now gameId w g Hg)
      as (wt & wid & p & w' & _ & Hrun & _). eauto.
  - exists false, w. unfold spinGame, bind, gets.
    now rewrite getGameState_eq, Hg.
Qed.

Lemma checkAndSpinIfFull_returns (rng : Rng) (now gameId : Z) (w : World) :
  exists b w', checkAndSpinIfFull rng now gameId w = (Returned b, w').
Proof.
  unfold checkAndSpinIfFull, bind, gets.
  destruct (getGameState gameId w) as [st|]; [|eexists _, _; reflexivity].
  destruct (_ <? _); [eexists _, _; reflexivity | apply spinGame_returns].
Qed.

Lemma checkAndSpinIfFull_not_full (rng : Rng) (now gameId : Z) (w : World)
    (g : Game.t) :
  game_of gameId w = Some g ->
  Z.of_nat (length (slots_of gameId w)) < Game.slotCount g ->
  checkAndSpinIfFull rng now gameId w = (Returned false, w).
Proof.
  intros Hg Hlt. unfold checkAndSpinIfFull, bind, gets.
  rewrite getGameState_eq, Hg. cbn [GameState.filledCount GameState.game].
  apply Z.ltb_lt in Hlt. now rewrite Hlt.
Qed.

Lemma checkAndSpinIfFull_full (rng : Rng) (now gameId : Z) (w : World)
    (g : Game.t) :
  game_of gameId w = Some g ->
  Game.slotCount g <= Z.of_nat (length (slots_of gameId w)) ->
  checkAndSpinIfFull rng now gameId w = spinGame rng now gameId w.
Proof.
  intros Hg Hfull. unfold checkAndSpinIfFull, bind at 1, gets at 1.
  rewrite getGameState_eq, Hg. cbn [GameState.filledCount GameState.game].
  destruct (_ <? _) eqn:E; [lia | reflexivity].
Qed.

Lemma slots_of_insert_slot (gameId : Z) (s : Slot.t) (w : World) :
  slots_of gameId (insert_slot s w)
  = slots_of gameId w ++ (if Slot.gameId s =? gameId then [s] else []).
Proof.
  unfold slots_of. cbn [insert_slot gameSlots].
  rewrite List.filter_app. cbn [List.filter].
  destruct (Slot.gameId s =? gameId); reflexivity.
Qed.

(** The successful path of [buySpot], up to the fullness check. *)
Lemma buySpot_success_run
    (rng : Rng) (now userId gameId slotNumber : Z) (w w0 : World)
    (g : Game.t) (p : UserPoints.t) :
  game_of gameId w = Some g ->
  ~ slot_occupied gameId slotNumber w ->
  getUserPoints userId w = (Returned p, w0) ->
  Game.entryCost g <= UserPoints.balance p ->
  exists w1,
    buySpot rng now userId gameId slotNumber w
    = (Returned (BuyResult.mk true "Spot purchased!"
                   (UserPoints.balance p - Game.entryCost g)),
       snd (checkAndSpinIfFull rng now gameId w1))
    /\ games w1 = games w
    /\ gameSlots w1
       = gameSlots w
         ++ [Slot.mk gameId slotNumber player (toString userId) (Game.entryCost g)]
    /\ userPoints w1 !! userId
       = Some (UserPoints.mk (UserPoints.userId p)
                 (UserPoints.balance p - Game.entryCost g)
                 (UserPoints.totalEarned p + Z.max (- Game.entryCost g) 0)
                 (UserPoints.totalWagered p + Z.max (Game.entryCost g) 0)
                 (UserPoints.lastDailyReward p))
    /\ (forall v, v <> userId -> userPoints w1 !! v = userPoints w !! v).
Proof.
  intros Hg Hfree Hget Hafford.
  unfold getUserPoints in Hget.
  destruct (getOrCreateUserPoints_returns userId w)
    as (p' & w0' & Hget' & Hp & Hg0 & _ & Hs0 & _ & Hsame).
  rewrite Hget in Hget'. injection Hget' as <- <-.
  unfold buySpot, bind at 1, gets at 1. rewrite getGameState_eq, Hg.
  cbn [GameState.game GameState.slots].
  destruct (existsb _ _) eqn:Etaken.
  { apply slotTaken_occupied in Etaken. contradiction. }
  unfold getUserPoints, bind at 1. rewrite Hget.
  destruct (_ <? _) eqn:Elow; [lia|].
  unfold bind at 1, updateUserBalance at 1, bind at 1.
  rewrite (getOrCreateUserPoints_existing _ _ _ Hp).
  unfold bind at 1, modify at 1, ret at 1. unfold bind at 1, modify at 1.
  unfold bind at 1.
  match goal with
  | |- context [checkAndSpinIfFull rng now gameId ?w1] =>
      exists w1; destruct (checkAndSpinIfFull_returns rng now gameId w1)
        as (b & w2 & Hcheck); rewrite Hcheck
  end.
  split; [reflexivity|].
  cbn [insert_slot with_userPoints games gameSlots userPoints].
  split; [exact Hg0|]. split; [now rewrite Hs0|]. split.
  - rewrite lookup_alter_eq, Hp. cbn. do 2 f_equal.
    + destruct (0 <? - Game.entryCost g) eqn:E; lia.
    + destruct (- Game.entryCost g <? 0) eqn:E; lia.
  - intros v Hv. rewrite lookup_alter_ne by congruence.
    destruct (userPoints w !! userId) as [q|] eqn:Eq.
    + now rewrite (Hsame q eq_refl).
    + rewrite (getOrCreateUserPoints_fresh _ _ Eq) in Hget.
      injection Hget as _ <-. cbn. now rewrite lookup_insert_ne by congruence.
Qed.

(** X15. When the game exists, the number is free and the balance covers
    the entry cost, [buySpot] succeeds and reports the balance minus the
    cost: the user is debited exactly the entry cost (added to
    totalWagered), exactly one player slot with the user's id is appended,
    no other user is touched, and then the fullness check runs; while the
    board is not full that check writes nothing. *)
Theorem buySpot_success
    (rng : Rng) (now userId gameId slotNumber : Z) (w w0 : World)
    (g : Game.t) (p : UserPoints.t) :
  game_of gameId w = Some g ->
  ~ slot_occupied gameId slotNumber w ->
  getUserPoints userId w = (Returned p, w0) ->
  Game.entryCost g <= UserPoints.balance p ->
  exists w1 w',
    buySpot rng now userId gameId slotNumber w
    = (Returned (BuyResult.mk true "Spot purchased!"
                   (UserPoints.balance p - Game.entryCost g)), w')
    /\ w' = snd (checkAndSpinIfFull rng now gameId w1)
    /\ games w1 = games w
    /\ gameSlots w1
       = gameSlots w
         ++ [Slot.mk gameId slotNumber player (toString userId) (Game.entryCost g)]
    /\ userPoints w1 !! userId
       = Some (UserPoints.mk (UserPoints.userId p)
                 (UserPoints.balance p - Game.entryCost g)
                 (UserPoints.totalEarned p + Z.max (- Game.entryCost g) 0)
                 (UserPoints.totalWagered p + Z.max (Game.entryCost g) 0)
                 (UserPoints.lastDailyReward p))
    /\ (forall v, v <> userId -> userPoints w1 !! v = userPoints w !! v)
    /\ (Z.of_nat (length (slots_of gameId w)) + 1 < Game.slotCount g -> w' = w1).
Proof.
  intros Hg Hfree Hget Hafford.
  destruct (buySpot_success_run rng now userId gameId slotNumber w w0 g p
              Hg Hfree Hget Hafford) as (w1 & Hrun & Hg1 & Hs1 & Hu & Hother).
  exists w1, (snd (checkAndSpinIfFull rng now gameId w1)).
  repeat (split; [assumption || reflexivity|]).
  intros Hroom.
  rewrite (checkAndSpinIfFull_not_full rng now gameId w1 g); [reflexivity| |].
  - unfold game_of in *. now rewrite Hg1.
  - unfold slots_of in *. rewrite Hs1, List.filter_app, length_app.
    cbn [List.filter Slot.gameId]. rewrite Z.eqb_refl. cbn [length]. lia.
Qed.

Lemma buySpot_success_witness :
  let g := Game.mk 1 high 6 25 (-20) None None None None None filling None in
  let p := UserPoints.mk 7 100 30000 29900 None in
  let w := mkWorld [g] 2 [Slot.mk 1 1 bot "T" 25] {[ 7 := p ]} [] in
  exists w1 w',
    buySpot (rng_of 0) 1000 7 1 3 w
    = (Returned (BuyResult.mk true "Spot purchased!" (100 - 25)), w')
    /\ w' = snd (checkAndSpinIfFull (rng_of 0) 1000 1 w1)
    /\ games w1 = games w
    /\ gameSlots w1 = gameSlots w ++ [Slot.mk 1 3 player (toString 7) 25]
    /\ userPoints w1 !! 7
       = Some (UserPoints.mk 7 (100 - 25) (30000 + Z.max (- 25) 0)
                 (29900 + Z.max 25 0) None)
    /\ (forall v, v <> 7 -> userPoints w1 !! v = userPoints w !! v)
    /\ (Z.of_nat (length (slots_of 1 w)) + 1 < 6 -> w' = w1).
Proof.
  intros g p w.
  apply (buySpot_success (rng_of 0) 1000 7 1 3 w w g p).
  - reflexivity.
  - intros (s & Hin & _ & Hn). cbn in Hin, Hn.
    destruct Hin as [<-|[]]. discriminate Hn.
  - reflexivity.
  - cbn. lia.
Defined.

(** X16. A successful purchase that brings the number of slots up to
    slotCount settles the game within the same call: afterwards the game
    is completed, with completedAt the instant of the purchase, and the
    purchased slot is stored. *)
Theorem buySpot_last_slot_settles
    (rng : Rng) (now userId gameId slotNumber : Z) (w w0 : World)
    (g : Game.t) (p : UserPoints.t) :
  game_of gameId w = Some g ->
  ~ slot_occupied gameId slotNumber w ->
  getUserPoints userId w = (Returned p, w0) ->
  Game.entryCost g <= UserPoints.balance p ->
  Game.slotCount g <= Z.of_nat (length (slots_of gameId w)) + 1 ->
  exists w' g',
    buySpot rng now userId gameId slotNumber w
    = (Returned (BuyResult.mk true "Spot purchased!"
                   (UserPoints.balance p - Game.entryCost g)), w')
    /\ game_of gameId w' = Some g'
    /\ Game.status g' = completed
    /\ Game.completedAt g' = Some now
    /\ gameSlots w'
       = gameSlots w
         ++ [Slot.mk gameId slotNumber player (toString userId) (Game.entryCost g)].
Proof.
  intros Hg Hfree Hget Hafford Hlast.
  destruct (buySpot_success_run rng now userId gameId slotNumber w w0 g p
              Hg Hfree Hget Hafford) as (w1 & Hrun & Hg1 & Hs1 & _ & _).
  assert (Hgame1 : game_of gameId w1 = Some g).
  { unfold game_of in *. now rewrite Hg1. }
  rewrite (checkAndSpinIfFull_full rng now gameId w1 g Hgame1) in Hrun.
  2:{ unfold slots_of in *. rewrite Hs1, List.filter_app, length_app.
      cbn [List.filter Slot.gameId]. rewrite Z.eqb_refl. cbn [length]. lia. }
  destruct (spinGame_persisted rng now gameId w1 g Hgame1)
    as (wt & wid & pay & w' & _ & Hspin & Hread & Hslots & _).
  rewrite Hspin in Hrun. cbn [snd] in Hrun.
  eexists w', _. split; [exact Hrun|]. split; [exact Hread|].
  cbn [Game.status Game.completedAt]. repeat split.
  now rewrite Hslots.
Qed.

Lemma buySpot_last_slot_settles_witness :
  let g := Game.mk 1 high 6 25 (-20) None None None None None filling None in
  let p := UserPoints.mk 7 100 30000 29900 None in
  let w := mkWorld [g] 2
             [Slot.mk 1 1 bot "T" 25; Slot.mk 1 2 bot "B" 25;
              Slot.mk 1 3 bot "J" 25; Slot.mk 1 4 bot "P" 25;
              Slot.mk 1 5 bot "K" 25] {[ 7 := p ]} [] in
  exists w' g',
    buySpot (rng_of 0) 1000 7 1 6 w
    = (Returned (BuyResult.mk true "Spot purchased!" (100 - 25)), w')
    /\ game_of 1 w' = Some g'
    /\ Game.status g' = completed
    /\ Game.completedAt g' = Some 1000
    /\ gameSlots w' = gameSlots w ++ [Slot.mk 1 6 player (toString 7) 25].
Proof.
  intros g p w.
  apply (buySpot_last_slot_settles (rng_of 0) 1000 7 1 6 w w g p).
  - reflexivity.
  - intros (s & Hin & _ & Hn). cbn in Hin, Hn.
    repeat (destruct Hin as [<-|Hin]; [discriminate Hn|]). destruct Hin.
  - reflexivity.
  - cbn. lia.
  - cbn. lia.
Defined.

(** ** The scheduler tick *)

Lemma addBotEntry_returns (rng : Rng) (gameId : Z) (w : World) :
  exists b w', addBotEntry rng gameId w = (Returned b, w').
Proof.
  unfold addBotEntry, bind, gets, modify, ret.
  destruct (getGameState gameId w) as [st|]; [|eauto].
  destruct (negb _); [eauto|]. destruct (_ <=? _); [eauto|].
  destruct (List.find _ _) as [e|]; [|eauto].
  destruct (e =? 0); eauto.
Qed.

Lemma addBotEntry_success (rng : Rng) (gameId : Z) (w : World) (g : Game.t) :
  game_of gameId w = Some g ->
  Game.status g = filling ->
  Z.of_nat (length (slots_of gameId w)) < Game.slotCount g ->
  exists s,
    addBotEntry rng gameId w = (Returned true, insert_slot s w)
    /\ Slot.gameId s = gameId /\ Slot.ownerType s = bot.
Proof.
  intros Hg Hs Hlt. unfold addBotEntry, bind, gets, modify, ret.
  rewrite getGameState_eq, Hg.
  cbn [GameState.game GameState.filledCount GameState.slots].
  rewrite (bool_decide_eq_true_2 _ Hs). cbn [negb].
  destruct (Game.slotCount g <=? _) eqn:E; [lia|].
  destruct (lowest_free_number (List.map Slot.slotNumber (slots_of gameId w))
              (Game.slotCount g)) as (e & Hfind & Hr & _).
  { now rewrite length_map. }
  rewrite Hfind. destruct (e =? 0) eqn:E0; [lia|].
  eexists. split; [reflexivity|]. split; reflexivity.
Qed.

Lemma addBots_returns (rngs : nat -> Rng) (spin : Rng) (now gameId : Z)
    (remaining : nat) :
  forall i w, exists w', addBots rngs spin now gameId i remaining w = (Returned tt, w').
Proof.
  induction remaining as [|k IH]; intros i w; cbn [addBots]; [eexists; reflexivity|].
  unfold bind at 1.
  destruct (addBotEntry_returns (rngs i) gameId w) as ([|] & w1 & ->); [|apply IH].
  unfold bind at 1, gets at 1.
  destruct (getGameState gameId w1) as [st|]; [|apply IH].
  unfold bind at 1, modify at 1.
  destruct (_ <=? _); [|apply IH].
  unfold bind, ret.
  match goal with
  | |- context [checkAndSpinIfFull spin now gameId ?w2] =>
      destruct (checkAndSpinIfFull_returns spin now gameId w2) as (b & w3 & ->)
  end.
  eexists; reflexivity.
Qed.

Lemma slots_of_grow (gameId : Z) (w w' : World) :
  (exists added, gameSlots w' = gameSlots w ++ added) ->
  (length (slots_of gameId w) <= length (slots_of gameId w'))%nat.
Proof.
  intros [a Ha]. unfold slots_of. rewrite Ha, List.filter_app, length_app. lia.
Qed.

(** A loop of at least one round on a filling game with room: the game
    ends up settled or with more slots. *)
Lemma addBots_progress (rngs : nat -> Rng) (spin : Rng) (now gameId : Z)
    (i k : nat) (w : World) (g : Game.t) :
  game_of gameId w = Some g ->
  Game.status g = filling ->
  Z.of_nat (length (slots_of gameId w)) < Game.slotCount g ->
  exists w' g',
    addBots rngs spin now gameId i (S k) w = (Returned tt, w')
    /\ game_of gameId w' = Some g'
    /\ Game.tier g' = Game.tier g
    /\ (Game.status g' = completed
        \/ (length (slots_of gameId w) < length (slots_of gameId w'))%nat).
Proof.
  intros Hg Hs Hlt. cbn [addBots]. unfold bind at 1.
  destruct (addBotEntry_success (rngs i) gameId w g Hg Hs Hlt)
    as (s & -> & Hsg & _).
  assert (Hg1 : game_of gameId (insert_slot s w) = Some g) by exact Hg.
  assert (Hlen : length (slots_of gameId (insert_slot s w))
                 = S (length (slots_of gameId w))).
  { rewrite slots_of_insert_slot, Hsg, Z.eqb_refl, length_app. cbn. lia. }
  unfold bind at 1, gets at 1. rewrite getGameState_eq, Hg1.
  cbn [GameState.game GameState.filledCount GameState.slots].
  unfold bind at 1, modify at 1.
  match goal with
  | |- context [emit ?u (insert_slot s w)] => set (w3 := emit u (insert_slot s w))
  end.
  assert (Hg3 : game_of gameId w3 = Some g) by exact Hg.
  assert (Hs3 : slots_of gameId w3 = slots_of gameId (insert_slot s w))
    by reflexivity.
  destruct (Game.slotCount g <=? _) eqn:Efull.
  - unfold bind, ret.
    rewrite (checkAndSpinIfFull_full spin now gameId w3 g Hg3)
      by (rewrite Hs3; lia).
    destruct (spinGame_persisted spin now gameId w3 g Hg3)
      as (wt & wid & p & w' & _ & -> & Hread & _).
    eexists w', _. split; [reflexivity|]. split; [exact Hread|].
    split; [reflexivity|]. left. reflexivity.
  - destruct (addBots_returns rngs spin now gameId k (S i) w3) as (w' & Hrun).
    pose proof (addBots_effects rngs spin now gameId k (S i) w3) as Heff.
    rewrite Hrun in Heff. cbn [snd] in Heff.
    apply rtc_effect_history_kept in Heff as [Hgrow Hkeep].
    destruct (Hkeep gameId g Hg3) as (g' & Hg' & _ & Ht & _).
    exists w', g'. split; [exact Hrun|]. split; [exact Hg'|].
    split; [exact Ht|]. right.
    pose proof (slots_of_grow gameId w3 w' Hgrow) as Hle.
    rewrite Hs3, Hlen in Hle. lia.
Qed.

(** X17. In every reachable world a scheduler tick for a tier never
    fails and makes progress on that tier's active game: afterwards the
    game is either completed or still filling with strictly more slots
    than before. *)
Theorem tierTick_makes_progress
    (calls : list Call) (rngs : nat -> Rng) (spin : Rng) (now : Z) (tier : Tier) :
  exists gameId w' g',
    fst (getOrCreateActiveGame tier (perform_all calls initial)) = Returned gameId
    /\ tierTick rngs spin now tier (perform_all calls initial) = (Returned tt, w')
    /\ game_of gameId w' = Some g'
    /\ Game.tier g' = tier
    /\ (Game.status g' = completed
        \/ (Game.status g' = filling
            /\ (length (slots_of gameId (perform_all calls initial))
                < length (slots_of gameId w'))%nat)).
Proof.
  set (w := perform_all calls initial).
  pose proof (reachable_counter calls) as Hwf. fold w in Hwf.
  destruct (getOrCreateActiveGame_returns tier w (wf_ids _ (proj1 Hwf)))
    as (gameId & g & w1 & Hrun & Hg & Hact & _ & Hs & _ & _).
  pose proof (getOrCreateActiveGame_effects tier w) as Heff1.
  rewrite Hrun in Heff1. cbn [snd] in Heff1.
  destruct (rtc_effect_well_formed _ _ Heff1 Hwf) as [Hwf1 _].
  pose proof (game_of_Some_known _ _ _ Hg) as [Hin _].
  pose proof (wf_games _ Hwf1) as [Hst _].
  rewrite List.Forall_forall in Hst. specialize (Hst g Hin).
  unfold active_in in Hact. apply andb_true_iff in Hact as [Ht Ha].
  apply bool_decide_eq_true in Ht.
  assert (Hfill : Game.status g = filling).
  { destruct Hst as [Hf|Hc]; [exact Hf|]. rewrite Hc in Ha. discriminate Ha. }
  assert (Hslots : slots_of gameId w1 = slots_of gameId w).
  { unfold slots_of. now rewrite Hs. }
  pose proof (tierTick_effects rngs spin now tier w) as Heff.
  assert (Hmain : exists w' g',
             tierTick rngs spin now tier w = (Returned tt, w')
             /\ game_of gameId w' = Some g'
             /\ Game.tier g' = tier
             /\ (Game.status g' = completed
                 \/ (length (slots_of gameId w) < length (slots_of gameId w'))%nat)).
  { unfold tierTick, catch_log, bind at 1. rewrite Hrun.
    unfold bind at 1, gets at 1. rewrite getGameState_eq, Hg.
    cbn [GameState.game GameState.filledCount GameState.slots].
    destruct (Game.slotCount g <=? _) eqn:Efull.
    - unfold bind, ret.
      rewrite (checkAndSpinIfFull_full spin now gameId w1 g Hg) by lia.
      destruct (spinGame_persisted spin now gameId w1 g Hg)
        as (wt & wid & p & w' & _ & -> & Hread & _).
      eexists w', _. split; [reflexivity|]. split; [exact Hread|].
      split; [exact Ht|]. left. reflexivity.
    - destruct (Z.to_nat _) as [|k] eqn:En; [lia|].
      destruct (addBots_progress rngs spin now gameId 0 k w1 g Hg Hfill)
        as (w' & g' & -> & Hg' & Ht' & Hprog); [lia|].
      exists w', g'. split; [reflexivity|]. split; [exact Hg'|].
      split; [congruence|]. now rewrite <- Hslots. }
  destruct Hmain as (w' & g' & Htick & Hg' & Ht' & Hprog).
  rewrite Htick in Heff. cbn [snd] in Heff.
  destruct (rtc_effect_well_formed _ _ Heff Hwf) as [Hwf' _].
  pose proof (game_of_Some_known _ _ _ Hg') as [Hin' _].
  pose proof (wf_games _ Hwf') as [Hst' _].
  rewrite List.Forall_forall in Hst'. specialize (Hst' g' Hin').
  exists gameId, w', g'. rewrite Hrun. split; [reflexivity|].
  split; [exact Htick|]. split; [exact Hg'|]. split; [exact Ht'|].
  destruct Hst' as [Hf|Hc]; [|now left].
  destruct Hprog as [Hc|Hmore]; [now left | right; now split].
Qed.

(** ** The leaderboard *)

#[local] Instance richer_first_trans : Transitive richer_first.
Proof. intros a b c. unfold richer_first. lia. Qed.

Lemma slice0_prefix {A} (endIndex : Z) (l : list A) :
  exists n, slice0 endIndex l = take n l
            /\ (0 <= endIndex -> n = Z.to_nat endIndex).
Proof.
  unfold slice0. destruct (0 <=? endIndex) eqn:E.
  - eexists. split; [reflexivity|]. reflexivity.
  - eexists. split; [reflexivity|]. lia.
Qed.

Lemma sort_insert_perm {A} (compareFn : A -> A -> Z) (x : A) (l : list A) :
  sort_insert compareFn x l ≡ₚ x :: l.
Proof.
  induction l as [|y l IH]; cbn [sort_insert]; [reflexivity|].
  destruct (_ <=? 0); [reflexivity|]. rewrite IH. apply Permutation_swap.
Qed.

Lemma Array_sort_perm {A} (compareFn : A -> A -> Z) (l : list A) :
  Array_sort compareFn l ≡ₚ l.
Proof.
  induction l as [|x l IH]; [reflexivity|].
  change (Array_sort compareFn (x :: l))
    with (sort_insert compareFn x (Array_sort compareFn l)).
  rewrite sort_insert_perm. now apply Permutation_skip.
Qed.

Lemma sort_insert_sorted (x : UserPoints.t) (l : list UserPoints.t) :
  Sorted richer_first l ->
  Sorted richer_first
    (sort_insert (fun a b => UserPoints.balance b - UserPoints.balance a) x l).
Proof.
  induction l as [|y l IH]; intros Hs; cbn [sort_insert].
  - repeat constructor.
  - destruct (UserPoints.balance y - UserPoints.balance x <=? 0) eqn:E.
    + constructor; [exact Hs|]. constructor. unfold richer_first. lia.
    + apply Sorted_inv in Hs as [Hs Hhd]. constructor; [now apply IH|].
      destruct l as [|z l]; cbn [sort_insert].
      * constructor. unfold richer_first. lia.
      * destruct (UserPoints.balance z - UserPoints.balance x <=? 0);
          constructor.
        -- unfold richer_first. lia.
        -- now apply HdRel_inv in Hhd.
Qed.

Lemma Array_sort_sorted (l : list UserPoints.t) :
  Sorted richer_first
    (Array_sort (fun a b => UserPoints.balance b - UserPoints.balance a) l).
Proof.
  induction l as [|x l IH]; [constructor|].
  change (Array_sort ?f (x :: l)) with (sort_insert f x (Array_sort f l)).
  now apply sort_insert_sorted.
Qed.

Lemma sort_insert_stable (balance : Z) (x : UserPoints.t) (l : list UserPoints.t) :
  with_balance balance
    (sort_insert (fun a b => UserPoints.balance b - UserPoints.balance a) x l)
  = with_balance balance (x :: l).
Proof.
  unfold with_balance.
  induction l as [|y l IH]; cbn [sort_insert]; [reflexivity|].
  destruct (_ <=? 0) eqn:E; [reflexivity|].
  cbn [List.filter] in *. rewrite IH.
  destruct (UserPoints.balance x =? balance) eqn:Ex,
           (UserPoints.balance y =? balance) eqn:Ey; try reflexivity.
  lia.
Qed.

Lemma Array_sort_stable (balance : Z) (l : list UserPoints.t) :
  with_balance balance
    (Array_sort (fun a b => UserPoints.balance b - UserPoints.balance a) l)
  = with_balance balance l.
Proof.
  induction l as [|x l IH]; [reflexivity|].
  change (Array_sort ?f (x :: l)) with (sort_insert f x (Array_sort f l)).
  rewrite sort_insert_stable. unfold with_balance in *. cbn [List.filter].
  now rewrite IH.
Qed.

(** Ties keep the order of the rows: three users with the same balance
    come out as they were read, and a cut keeps the first. *)
Example getLeaderboard_ties :
  let r u := UserPoints.mk u 30000 30000 0 None in
  getLeaderboard [r 9; r 8; r 7] 10 = [r 9; r 8; r 7]
  /\ getLeaderboard [r 7; r 8; r 9] 1 = [r 7]
  /\ getLeaderboard [r 7; UserPoints.mk 8 30100 30100 0 None; r 9] 2
     = [UserPoints.mk 8 30100 30100 0 None; r 7].
Proof. repeat split. Qed.

(** X18. [getLeaderboard(limit)], on the rows of the table in any order:
    it returns stored records only, ordered by falling balance; what it
    leaves out are the remaining rows, none of which has a higher balance
    than any record returned; records with equal balance keep the order
    of the rows; for a non-negative limit it returns [limit] records, or
    all of them when there are fewer. *)
Theorem getLeaderboard_top (allPoints : list UserPoints.t) (limit : Z) (w : World) :
  allPoints ≡ₚ List.map snd (map_to_list (userPoints w)) ->
  exists rest,
    getLeaderboard allPoints limit ++ rest ≡ₚ allPoints
    /\ StronglySorted richer_first (getLeaderboard allPoints limit)
    /\ (forall p q, In p (getLeaderboard allPoints limit) -> In q rest ->
          UserPoints.balance q <= UserPoints.balance p)
    /\ (forall balance,
          with_balance balance (getLeaderboard allPoints limit ++ rest)
          = with_balance balance allPoints)
    /\ (forall p, In p (getLeaderboard allPoints limit) ->
          exists u, userPoints w !! u = Some p)
    /\ (0 <= limit ->
        Z.of_nat (length (getLeaderboard allPoints limit))
        = Z.min limit (Z.of_nat (size (userPoints w)))).
Proof.
  intros Hrows. unfold getLeaderboard.
  set (sorted := Array_sort _ allPoints).
  destruct (slice0_prefix limit sorted) as (n & Hslice & Hn).
  rewrite Hslice.
  assert (Hsorted : StronglySorted richer_first sorted).
  { apply Sorted_StronglySorted; [apply _ | apply Array_sort_sorted]. }
  assert (Hperm : sorted ≡ₚ allPoints) by apply Array_sort_perm.
  exists (drop n sorted). rewrite take_drop.
  split; [exact Hperm|]. split.
  { rewrite <- (take_drop n sorted) in Hsorted.
    now apply StronglySorted_app_1_l in Hsorted. }
  split.
  { intros p q Hp Hq. rewrite <- (take_drop n sorted) in Hsorted.
    apply (StronglySorted_app_1_elem_of _ _ _ p q Hsorted);
      now apply list_elem_of_In. }
  split; [intros balance; apply Array_sort_stable|].
  split.
  { intros p Hp. apply list_elem_of_In in Hp.
    apply elem_of_take in Hp as (i & Hp & _).
    apply list_elem_of_lookup_2 in Hp. rewrite Hperm, Hrows in Hp.
    apply list_elem_of_In, in_map_iff in Hp as ([u p'] & <- & Hin).
    exists u. apply list_elem_of_In, elem_of_map_to_list in Hin. exact Hin. }
  intros Hpos. rewrite length_take, (Hn Hpos), Hperm, Hrows.
  rewrite length_map, length_map_to_list. lia.
Qed.

Lemma getLeaderboard_top_witness :
  let r9 := UserPoints.mk 9 30000 30000 0 None in
  let r8 := UserPoints.mk 8 30000 30000 0 None in
  let w := mkWorld [] 1 [] (<[8 := r8]> {[ 9 := r9 ]}) [] in
  exists rest,
    getLeaderboard [r9; r8] 1 ++ rest ≡ₚ [r9; r8]
    /\ StronglySorted richer_first (getLeaderboard [r9; r8] 1)
    /\ (forall p q, In p (getLeaderboard [r9; r8] 1) -> In q rest ->
          UserPoints.balance q <= UserPoints.balance p)
    /\ (forall balance,
          with_balance balance (getLeaderboard [r9; r8] 1 ++ rest)
          = with_balance balance [r9; r8])
    /\ (forall p, In p (getLeaderboard [r9; r8] 1) ->
          exists u, userPoints w !! u = Some p)
    /\ (0 <= 1 ->
        Z.of_nat (length (getLeaderboard [r9; r8] 1))
        = Z.min 1 (Z.of_nat (size (userPoints w)))).
Proof.
  intros r9 r8 w. apply (getLeaderboard_top [r9; r8] 1 w).
  vm_compute. first [reflexivity | apply Permutation_swap].
Defined.

(** ** Claiming the daily reward through the router *)

Lemma applyDailyReward_run (localMidnight : Z -> Z) (now userId : Z)
    (w w0 : World) (p0 : UserPoints.t) :
  getUserPoints userId w = (Returned p0, w0) ->
  applyDailyReward localMidnight now userId w
  = if match UserPoints.lastDailyReward p0 with
       | Some lastReward => localMidnight now =? localMidnight lastReward
       | None => false
       end
    then (Returned false, w0)
    else (Returned true,
          with_userPoints
            (alter (fun row =>
                      UserPoints.mk (UserPoints.userId row)
                        (UserPoints.balance p0 + 50000)
                        (UserPoints.totalEarned p0 + 50000)
                        (UserPoints.totalWagered row)
                        (Some now))
                   userId) w0).
Proof.
  unfold getUserPoints. intros Hget.
  unfold applyDailyReward, bind at 1. rewrite Hget.
  destruct (match UserPoints.lastDailyReward p0 with
            | Some lastReward => localMidnight now =? localMidnight lastReward
            | None => false
            end); reflexivity.
Qed.

(** X19. The [claimDailyReward] procedure: when the user's last reward
    fell on the calendar day of [now] it answers
    "Daily reward already claimed today" and changes no balance;
    otherwise it answers "Daily reward claimed!" with a new balance that
    is the old one plus 50000, which is also the balance then stored. *)
Theorem claimDailyReward_reports_the_balance
    (localMidnight : Z -> Z) (now userId : Z) (w : World) :
  exists p0 w0,
    getUserPoints userId w = (Returned p0, w0)
    /\ ((exists last, UserPoints.lastDailyReward p0 = Some last
                      /\ localMidnight now = localMidnight last) ->
        claimDailyReward localMidnight now userId w
        = (Returned (ClaimResult.mk false "Daily reward already claimed today" None),
           w0))
    /\ ((forall last, UserPoints.lastDailyReward p0 = Some last ->
                      localMidnight now <> localMidnight last) ->
        exists w',
          claimDailyReward localMidnight now userId w
          = (Returned (ClaimResult.mk true "Daily reward claimed!"
                         (Some (UserPoints.balance p0 + 50000))), w')
          /\ option_map UserPoints.balance (userPoints w' !! userId)
             = Some (UserPoints.balance p0 + 50000)
          /\ option_map UserPoints.lastDailyReward (userPoints w' !! userId)
             = Some (Some now)).
Proof.
  destruct (getOrCreateUserPoints_returns userId w)
    as (p0 & w0 & Hget & Hp0 & _).
  exists p0, w0. split; [exact Hget|].
  split; [intros (last & Hlast & Hday) | intros Hnot];
    unfold claimDailyReward, bind at 1;
    rewrite (applyDailyReward_run localMidnight now userId w w0 p0 Hget).
  - rewrite Hlast, Hday, Z.eqb_refl. reflexivity.
  -
    assert (Hfirst :
      match UserPoints.lastDailyReward p0 with
      | Some lastReward => localMidnight now =? localMidnight lastReward
      | None => false
      end = false).
    { destruct (UserPoints.lastDailyReward p0) as [last|]; [|reflexivity].
      apply Z.eqb_neq. now apply Hnot. }
    rewrite Hfirst. unfold getUserPoints, bind.
    erewrite getOrCreateUserPoints_existing
      by (cbn [userPoints with_userPoints]; rewrite lookup_alter_eq, Hp0;
          reflexivity).
    eexists. split; [reflexivity|].
    cbn [userPoints with_userPoints]. rewrite lookup_alter_eq, Hp0.
    split; reflexivity.
Qed.

Lemma claimDailyReward_reports_the_balance_witness :
  exists w',
    claimDailyReward (fun t => t / 86400000 * 86400000) 1000 7 initial
    = (Returned (ClaimResult.mk true "Daily reward claimed!" (Some (30000 + 50000))),
       w')
    /\ option_map UserPoints.balance (userPoints w' !! 7) = Some (30000 + 50000)
    /\ option_map UserPoints.lastDailyReward (userPoints w' !! 7)
       = Some (Some 1000).
Proof.
  destruct (claimDailyReward_reports_the_balance
              (fun t => t / 86400000 * 86400000) 1000 7 initial)
    as (p0 & w0 & Hget & _ & Hclaim).
  vm_compute in Hget. injection Hget as <- <-.
  apply Hclaim. intros last Hlast. discriminate Hlast.
Defined.

(** ** The published result *)

(** The credit step of a settlement never throws and leaves games, slots
    and the event log alone. *)
Lemma credit_step_frame (isPlayer : bool) (wid : string) (p : Z) (w : World) :
  exists w2,
    (if isPlayer then
       match parseInt wid with
       | Some userId_num => updateUserBalance userId_num p ;;; ret tt
       | None => ret tt
       end
     else ret tt) w = (Returned tt, w2)
    /\ games w2 = games w /\ gameSlots w2 = gameSlots w
    /\ emitted w2 = emitted w.
Proof.
  destruct isPlayer; [|exists w; repeat split].
  destruct (parseInt wid) as [u|]; [|exists w; repeat split].
  destruct (updateUserBalance_frame u p w) as (b & w2 & Hupd & Hg & _ & Hs & He).
  exists w2. unfold bind, ret. rewrite Hupd. repeat split; assumption.
Qed.

(** X20. Every settlement of an existing game publishes exactly one
    update: it shows the game completed with all its slots, and its result
    is the one persisted on the game row (winning number, winner, payout,
    commission). *)
Theorem spinGame_publishes_result
    (rng : Rng) (now gameId : Z) (w : World) (g : Game.t) :
  game_of gameId w = Some g ->
  exists w' g' u r,
    spinGame rng now gameId w = (Returned true, w')
    /\ game_of gameId w' = Some g'
    /\ emitted w' = emitted w ++ [u]
    /\ Update.gameId u = Game.id g
    /\ Update.tier u = Game.tier g
    /\ Update.status u = completed
    /\ Update.slotCount u = Game.slotCount g
    /\ Update.filledCount u = Z.of_nat (length (slots_of gameId w))
    /\ Update.slots u = List.map slot_summary (slots_of gameId w)
    /\ Update.res u = Some r
    /\ Game.winningSlot g' = Some (Update.winningSlot r)
    /\ Game.winnerType g' = Some (Update.winnerType r)
    /\ Game.winnerId g' = Some (Update.winnerId r)
    /\ Game.payout g' = Some (Update.payout r)
    /\ Game.houseCommission g' = Some (Update.houseCommission r).
Proof.
  intros Hg.
  assert (Hsettled : forall f1 f2 w2,
             games w2 = update_game gameId f2 (update_game gameId f1 (games w)) ->
             (forall x, Game.id (f1 x) = Game.id x) ->
             (forall x, Game.id (f2 x) = Game.id x) ->
             game_of gameId w2 = Some (f2 (f1 g))).
  { intros f1 f2 w2 Hgs H1 H2. unfold game_of in *. rewrite Hgs.
    rewrite !find_update_game by assumption. now rewrite Hg. }
  unfold spinGame, bind at 1, gets at 1. rewrite getGameState_eq, Hg.
  cbn [GameState.game GameState.slots].
  destruct (List.find _ (slots_of gameId w)) as [s|]; cbv beta iota zeta;
    unfold bind at 1, modify at 1; unfold bind at 1, modify at 1;
    unfold bind at 1;
    match goal with
    | |- context [(if ?b then match parseInt ?wid with
                              | Some u => updateUserBalance u ?p ;;; ret tt
                              | None => ret tt
                              end
                   else ret tt) ?w1] =>
        destruct (credit_step_frame b wid p w1) as (w2 & -> & Hg2 & Hs2 & He2);
        cbn [with_games games gameSlots emitted] in Hg2, Hs2, He2;
        pose proof (Hsettled _ _ w2 Hg2 (fun _ => eq_refl) (fun _ => eq_refl))
          as Hread
    end;
    unfold bind at 1, gets at 1; rewrite getGameState_eq, Hread;
    unfold bind, modify, ret;
    cbn [fst snd GameState.game GameState.slots GameState.filledCount];
    (eexists _, _, _, _; split; [reflexivity|]);
    (split; [unfold game_of in *; cbn [emit games]; exact Hread|]);
    cbn [emit emitted]; rewrite He2;
    (split; [reflexivity|]);
    cbn [Update.gameId Update.tier Update.status Update.slotCount
         Update.filledCount Update.slots Update.res Update.winningSlot
         Update.winnerType Update.winnerId Update.payout Update.houseCommission
         Game.id Game.tier Game.status Game.slotCount Game.winningSlot
         Game.winnerType Game.winnerId Game.payout Game.houseCommission
         Game.set_result Game.set_status];
    assert (Hsl : slots_of gameId w2 = slots_of gameId w)
      by (unfold slots_of; now rewrite Hs2);
    rewrite Hsl.
  - repeat (split; [reflexivity|]). split; [|reflexivity].
    destruct (bool_decide (winner_of_owner (Slot.ownerType s) = player_wins));
      [reflexivity|]. now rewrite andb_false_r.
  - repeat (split; [reflexivity|]). reflexivity.
Qed.

Lemma spinGame_publishes_result_witness :
  let g := Game.mk 1 high 6 25 (-20) None None None None None filling None in
  let w := mkWorld [g] 2 [Slot.mk 1 1 player "7" 25; Slot.mk 1 2 bot "T" 25]
             ∅ [] in
  exists w' g' u r,
    spinGame (rng_of 1) 1000 1 w = (Returned true, w')
    /\ game_of 1 w' = Some g'
    /\ emitted w' = emitted w ++ [u]
    /\ Update.gameId u = Game.id g
    /\ Update.tier u = Game.tier g
    /\ Update.status u = completed
    /\ Update.slotCount u = Game.slotCount g
    /\ Update.filledCount u = Z.of_nat (length (slots_of 1 w))
    /\ Update.slots u = List.map slot_summary (slots_of 1 w)
    /\ Update.res u = Some r
    /\ Game.winningSlot g' = Some (Update.winningSlot r)
    /\ Game.winnerType g' = Some (Update.winnerType r)
    /\ Game.winnerId g' = Some (Update.winnerId r)
    /\ Game.payout g' = Some (Update.payout r)
    /\ Game.houseCommission g' = Some (Update.houseCommission r).
Proof.
  intros g w. apply (spinGame_publishes_result (rng_of 1) 1000 1 w g).
  reflexivity.
Defined.
